(** * vow: maintenance scripts, test driver and analysis engine

    The repository holds a static source-analysis engine (written in Rust,
    driven through the [vow] binary) together with Python maintenance
    scripts that patch the analyzers' source files and Python test drivers.

    Part I embeds the Python code: the regular expressions and string
    operations of the patch scripts, the per-file patch functions with
    their file effects, and [run_vow_command].
    Part II models the analysis engine itself. *)

From stdpp Require Import gmap strings list fin_maps.
From Stdlib Require Import NArith Ascii String List Lia Permutation Sorted.
Import ListNotations.

Local Open Scope N_scope.
Local Open Scope nat_scope.
Local Open Scope list_scope.

(* ===================================================================== *)
(** * Part I.  The Python scripts                                         *)
(* ===================================================================== *)

(** ** Text

    A Python [str] is a sequence of Unicode code points; a code point is
    modelled as a number of type [N]. *)

Definition char := N.
Definition text := list N.

(** The code points of a literal written in ASCII. *)
Fixpoint txt (s : string) : text :=
  match s with
  | EmptyString => []
  | String a s' => N_of_ascii a :: txt s'
  end.

Definition NL : N := 10%N.          (* '\n' *)
Definition DQ : text := [34%N].     (* the double quote character *)

(** [lit_strip t s]: [s] without its prefix [t], when [s] starts with [t]. *)
Fixpoint lit_strip (t s : text) : option text :=
  match t, s with
  | [], _ => Some s
  | c :: t', d :: s' => if N.eqb c d then lit_strip t' s' else None
  | _ :: _, [] => None
  end.

(** [s.startswith(t)] *)
Definition startswith (t s : text) : bool :=
  match lit_strip t s with Some _ => true | None => false end.

(** [t in s] on strings: [t] occurs in [s] as a substring. *)
Fixpoint contains (t s : text) : bool :=
  startswith t s ||
  match s with
  | [] => false
  | _ :: s' => contains t s'
  end.

(** [s.split(sep)] for a one-character separator. *)
Fixpoint split_on (sep : N) (s : text) : list text :=
  match s with
  | [] => [[]]
  | c :: s' =>
      if N.eqb c sep then [] :: split_on sep s'
      else match split_on sep s' with
           | l :: ls => (c :: l) :: ls
           | [] => [[c]]
           end
  end.

(** [sep.join(ls)] *)
Fixpoint join (sep : text) (ls : list text) : text :=
  match ls with
  | [] => []
  | l :: ls' =>
      match ls' with
      | [] => l
      | _ :: _ => l ++ sep ++ join sep ls'
      end
  end.

(** [s.replace(old, new)] for a non-empty [old]: the occurrences of [old]
    are replaced from the left, without overlap.  [skip] counts the
    characters of the occurrence just replaced that are still to be
    passed over. *)
Fixpoint replace_from (old new : text) (skip : nat) (s : text) : text :=
  match s with
  | [] => []
  | c :: s' =>
      match skip with
      | S n => replace_from old new n s'
      | O => if startswith old s
             then new ++ replace_from old new (length old - 1) s'
             else c :: replace_from old new 0 s'
      end
  end.

Definition str_replace (old new s : text) : text := replace_from old new 0 s.

(** ** Regular expressions

    The fragment of Python's [re] syntax that the scripts use: literal
    text, a character class, a greedy [*] or [+] on a character class,
    concatenation and numbered capture groups.  The scripts' patterns use
    neither [.] nor [^]/[$], so the flags [re.MULTILINE] and [re.DOTALL]
    they pass change nothing. *)

Inductive re : Type :=
  | Lit (t : text)
  | Cls (p : N -> bool)
  | Star (p : N -> bool)
  | Plus (p : N -> bool)
  | Cat (a b : re)
  | Grp (n : nat) (a : re).

(** The captured groups of a match in progress. *)
Definition caps := nat -> text.
Definition no_caps : caps := fun _ => [].
Definition set_cap (n : nat) (t : text) (e : caps) : caps :=
  fun m => if Nat.eqb m n then t else e m.

(** [\s] on [str] patterns: Unicode white space. *)
Definition is_space (c : N) : bool :=
  ((9 <=? c) && (c <=? 13) || (28 <=? c) && (c <=? 32)
   || (c =? 133) || (c =? 160) || (c =? 5760)
   || (8192 <=? c) && (c <=? 8202)
   || (c =? 8232) || (c =? 8233) || (c =? 8239) || (c =? 8287)
   || (c =? 12288))%N.

(** [[^x]]: any character but [x] (a newline included). *)
Definition not_char (x : string) (c : N) : bool :=
  negb (existsb (N.eqb c) (txt x)).

(** Backtracking matcher in continuation-passing style: [k] receives the
    text left after the part matched so far.  A greedy repetition first
    tries one more character and falls back to the continuation. *)
Fixpoint star_k {R : Type} (p : N -> bool) (s : text)
    (k : text -> option R) : option R :=
  match s with
  | [] => k []
  | c :: s' =>
      if p c then
        match star_k p s' k with
        | Some r => Some r
        | None => k s
        end
      else k s
  end.

Fixpoint rmatch {R : Type} (r : re) (s : text) (e : caps)
    (k : text -> caps -> option R) : option R :=
  match r with
  | Lit t => match lit_strip t s with
             | Some s' => k s' e
             | None => None
             end
  | Cls p => match s with
             | c :: s' => if p c then k s' e else None
             | [] => None
             end
  | Star p => star_k p s (fun s' => k s' e)
  | Plus p => match s with
              | c :: s' => if p c then star_k p s' (fun s' => k s' e) else None
              | [] => None
              end
  | Cat a b => rmatch a s e (fun s' e' => rmatch b s' e' k)
  | Grp n a =>
      rmatch a s e
        (fun s' e' => k s' (set_cap n (take (length s - length s') s) e'))
  end.

(** A match anchored at the start of [s]: the groups and the text after
    the match. *)
Definition match_at (r : re) (s : text) : option (caps * text) :=
  rmatch r s no_caps (fun s' e => Some (e, s')).

(** [re.sub(pattern, repl, s)] with a replacement function [repl], which
    receives [match.group(0)] and the groups.  The text is scanned from
    the left; at a position where the pattern matches, the replacement is
    emitted and the scan resumes after the match.  Every pattern of the
    scripts contains literal text, so a match is never empty; an empty
    match is treated as Python does when it finds one: the replacement is
    inserted and the character copied. *)
Fixpoint re_sub_from (r : re) (repl : text -> caps -> text)
    (skip : nat) (s : text) : text :=
  match s with
  | [] => []
  | c :: s' =>
      match skip with
      | S n => re_sub_from r repl n s'
      | O =>
          match match_at r s with
          | Some (e, rest) =>
              match length s - length rest with
              | O => repl [] e ++ c :: re_sub_from r repl 0 s'
              | S n => repl (take (S n) s) e ++ re_sub_from r repl n s'
              end
          | None => c :: re_sub_from r repl 0 s'
          end
      end
  end.

Definition re_sub (r : re) (repl : text -> caps -> text) (s : text) : text :=
  re_sub_from r repl 0 s.

(** Concatenation of a sequence of pieces, to write patterns in the order
    of their source text. *)
Fixpoint seq_re (rs : list re) : re :=
  match rs with
  | [] => Lit []
  | r :: rs' =>
      match rs' with
      | [] => r
      | _ :: _ => Cat r (seq_re rs')
      end
  end.

(** ** The patch scripts' text transformations *)

(** [suggestion: Some("Review and fix this issue".to_string()),] *)
Definition generic_suggestion : text :=
  txt "suggestion: Some(" ++ DQ ++ txt "Review and fix this issue" ++ DQ
  ++ txt ".to_string()),".

(** *** fix_missing_suggestions.py *)

(** [r'(rule: Some\([^)]+\),)\s*\n\s*\}\);'] *)
Definition missing_pattern : re :=
  seq_re [ Grp 1 (seq_re [Lit (txt "rule: Some("); Plus (not_char ")");
                          Lit (txt "),")]);
           Star is_space; Lit [NL]; Star is_space; Lit (txt "});") ].

(** [add_suggestion(match)] *)
Definition missing_repl (_ : text) (e : caps) : text :=
  e 1 ++ [NL] ++ txt "                        " ++ generic_suggestion
  ++ [NL] ++ txt "                    });".

(** What [add_missing_suggestions] computes from the content it read. *)
Definition add_missing_suggestions_text (content : text) : text :=
  re_sub missing_pattern missing_repl content.

(** *** fix_suggestions.py *)

(** [r'issues\.push\(Issue \{\s*severity: [^}]+,\s*message: [^}]+,\s*line: [^}]+,\s*rule: [^}]+,\s*\}\);'] *)
Definition fix_pattern : re :=
  seq_re [ Lit (txt "issues.push(Issue {"); Star is_space;
           Lit (txt "severity: "); Plus (not_char "}"); Lit (txt ",");
           Star is_space;
           Lit (txt "message: "); Plus (not_char "}"); Lit (txt ",");
           Star is_space;
           Lit (txt "line: "); Plus (not_char "}"); Lit (txt ",");
           Star is_space;
           Lit (txt "rule: "); Plus (not_char "}"); Lit (txt ",");
           Star is_space; Lit (txt "});") ].

Definition fix_repl (matched_text : text) (_ : caps) : text :=
  str_replace (txt "});")
    (generic_suggestion ++ [NL] ++ txt "                    });")
    matched_text.

Definition fix_issues_text (content : text) : text :=
  re_sub fix_pattern fix_repl content.

(** *** add_none_suggestions.py *)

(** [r'(issues\.push\(Issue \{[^}]*rule: Some\([^)]+\),)\s*(\n\s*\}\);)'] *)
Definition none_pattern : re :=
  seq_re [ Grp 1 (seq_re [Lit (txt "issues.push(Issue {");
                          Star (not_char "}");
                          Lit (txt "rule: Some("); Plus (not_char ")");
                          Lit (txt "),")]);
           Star is_space;
           Grp 2 (seq_re [Lit [NL]; Star is_space; Lit (txt "});")]) ].

(** [add_suggestion_none(match)] *)
Definition none_repl (_ : text) (e : caps) : text :=
  e 1 ++ [NL] ++ txt "                        suggestion: None," ++ e 2.

Definition add_none_suggestions_text (content : text) : text :=
  re_sub none_pattern none_repl content.

(** *** clean_suggestions.py *)

(** [r'(\s+suggestion: [^,]+,)\s+suggestion: Some\("Review and fix this issue"\.to_string\(\)\),'] *)
Definition clean_pattern : re :=
  seq_re [ Grp 1 (seq_re [Plus is_space; Lit (txt "suggestion: ");
                          Plus (not_char ","); Lit (txt ",")]);
           Plus is_space; Lit generic_suggestion ].

Definition clean_repl (_ : text) (e : caps) : text := e 1.

Definition clean_duplicates_text (content : text) : text :=
  re_sub clean_pattern clean_repl content.

(** *** fix_duplicates.py *)

Definition html_suggestion : text :=
  txt "suggestion: Some(" ++ DQ ++ txt "Review and fix HTML structure" ++ DQ
  ++ txt ".to_string()),".

Definition type_suggestion : text :=
  txt "suggestion: Some(" ++ DQ ++ txt "Fix type mismatch before method call"
  ++ DQ ++ txt ".to_string()),".

(** One turn of the loop [for line in lines]: the three [continue] tests,
    then [filtered_lines.append(line)]. *)
Definition filter_step (filtered_lines : list text) (line : text)
    : list text :=
  if contains generic_suggestion line then filtered_lines
  else if contains html_suggestion line then filtered_lines
  else if contains type_suggestion line then filtered_lines
  else filtered_lines ++ [line].

Definition filtered_lines_of (content : text) : list text :=
  fold_left filter_step (split_on NL content) [].

Definition remove_duplicate_suggestions_text (content : text) : text :=
  join [NL] (filtered_lines_of content).

(** The reference definition of the same transformation: delete every
    line that contains one of the three literal suggestions. *)
Definition is_generic_line (line : text) : bool :=
  contains generic_suggestion line || contains html_suggestion line
  || contains type_suggestion line.

Definition remove_duplicates_reference (content : text) : text :=
  join [NL] (filter (fun l => negb (is_generic_line l)) (split_on NL content)).

(** ** Files and effects

    The scripts read and write files and print progress lines.  A
    computation takes the file system and returns its result (a value or a
    raised exception), the file system it leaves and the effects it
    performed, in order. *)

Inductive exn : Type :=
  | FileNotFoundError
  | PermissionError
  | UnicodeEncodeError
  | AttributeError
  | OSError.

Inductive result (A : Type) : Type :=
  | Ok (a : A)
  | Raise (e : exn).
Arguments Ok {A} a.
Arguments Raise {A} e.

Inductive effect : Type :=
  | Wrote (path : text)       (* the file was opened with mode 'w' *)
  | Printed (line : text).

Record fsys : Type := {
  files : gmap text text;          (* regular files and their content *)
  dirs : gmap text (list text)     (* directories and their entry names *)
}.

Definition M (A : Type) : Type := fsys -> result A * fsys * list effect.

Definition ret {A : Type} (a : A) : M A := fun w => (Ok a, w, []).

Definition bind {A B : Type} (m : M A) (k : A -> M B) : M B :=
  fun w =>
    match m w with
    | (Ok a, w1, l1) =>
        match k a w1 with
        | (r, w2, l2) => (r, w2, l1 ++ l2)
        end
    | (Raise e, w1, l1) => (Raise e, w1, l1)
    end.

Notation "x <- m ;; k" := (bind m (fun x => k))
  (at level 100, m at next level, right associativity).
Notation "m ;;; k" := (bind m (fun _ => k))
  (at level 100, right associativity).

(** [with open(path, 'r') as f: f.read()] *)
Definition read_file (path : text) : M text :=
  fun w =>
    match files w !! path with
    | Some content => (Ok content, w, [])
    | None => (Raise FileNotFoundError, w, [])
    end.

(** [with open(path, 'w') as f: f.write(content)] *)
Definition write_file (path content : text) : M unit :=
  fun w =>
    (Ok tt, {| files := <[path := content]> (files w); dirs := dirs w |},
     [Wrote path]).

Definition print (line : text) : M unit := fun w => (Ok tt, w, [Printed line]).

(** [os.listdir(path)] *)
Definition listdir (path : text) : M (list text) :=
  fun w =>
    match dirs w !! path with
    | Some names => (Ok names, w, [])
    | None => (Raise FileNotFoundError, w, [])
    end.

Fixpoint for_each {A : Type} (l : list A) (body : A -> M unit) : M unit :=
  match l with
  | [] => ret tt
  | x :: l' => body x ;;; for_each l' body
  end.

(** [a != b] on strings *)
Definition text_neb (a b : text) : bool :=
  if decide (a = b) then false else true.

(** [s.endswith(t)] *)
Definition endswith (t s : text) : bool := startswith (rev t) (rev s).

(** [os.path.join(a, b)] on POSIX. *)
Definition path_join (a b : text) : text :=
  if startswith (txt "/") b then b
  else if (text_neb a [] && negb (endswith (txt "/") a))%bool
       then a ++ txt "/" ++ b
       else a ++ b.

(** The body shared by the five per-file patch functions: read the file,
    transform the content, and write it back and report only if it
    changed. *)
Definition patch_file (transform : text -> text) (report : text)
    (file_path : text) : M unit :=
  content <- read_file file_path ;;
  let fixed_content := transform content in
  if text_neb fixed_content content then
    write_file file_path fixed_content ;;;
    print (report ++ file_path)
  else ret tt.

Definition fix_issues_in_file : text -> M unit :=
  patch_file fix_issues_text (txt "Fixed ").

Definition add_missing_suggestions : text -> M unit :=
  patch_file add_missing_suggestions_text (txt "Added missing suggestions to ").

Definition add_none_suggestions : text -> M unit :=
  patch_file add_none_suggestions_text (txt "Added None suggestions to ").

Definition clean_duplicates_in_file : text -> M unit :=
  patch_file clean_duplicates_text (txt "Cleaned ").

Definition remove_duplicate_suggestions : text -> M unit :=
  patch_file remove_duplicate_suggestions_text (txt "Removed duplicates from ").

Definition analyzer_dir : text := txt "src/analyzers".

(** The loop that ends each script. *)
Definition patch_all (patch : text -> M unit) : M unit :=
  names <- listdir analyzer_dir ;;
  for_each names (fun file_name =>
    if endswith (txt ".rs") file_name
    then patch (path_join analyzer_dir file_name)
    else ret tt).

(** The five scripts. *)
Inductive script : Type :=
  | FixSuggestions       (* fix_suggestions.py *)
  | FixMissingSuggestions (* fix_missing_suggestions.py *)
  | AddNoneSuggestions   (* add_none_suggestions.py *)
  | CleanSuggestions     (* clean_suggestions.py *)
  | FixDuplicates.       (* fix_duplicates.py *)

Definition patch_function (s : script) : text -> M unit :=
  match s with
  | FixSuggestions => fix_issues_in_file
  | FixMissingSuggestions => add_missing_suggestions
  | AddNoneSuggestions => add_none_suggestions
  | CleanSuggestions => clean_duplicates_in_file
  | FixDuplicates => remove_duplicate_suggestions
  end.

Definition transformation (s : script) : text -> text :=
  match s with
  | FixSuggestions => fix_issues_text
  | FixMissingSuggestions => add_missing_suggestions_text
  | AddNoneSuggestions => add_none_suggestions_text
  | CleanSuggestions => clean_duplicates_text
  | FixDuplicates => remove_duplicate_suggestions_text
  end.

Definition run_script (s : script) : M unit := patch_all (patch_function s).

(** The paths a computation opened for writing. *)
Fixpoint written (l : list effect) : list text :=
  match l with
  | [] => []
  | Wrote p :: l' => p :: written l'
  | Printed _ :: l' => written l'
  end.

(** ** test_severity_config.py: [run_vow_command] *)

(** [s.encode()]: UTF-8; a surrogate code point cannot be encoded. *)
Definition utf8_char (c : N) : option (list N) :=
  (if c <? 128 then Some [c]
   else if c <? 2048 then Some [192 + c / 64; 128 + c mod 64]
   else if (55296 <=? c) && (c <=? 57343) then None
   else if c <? 65536 then
     Some [224 + c / 4096; 128 + (c / 64) mod 64; 128 + c mod 64]
   else Some [240 + c / 262144; 128 + (c / 4096) mod 64;
              128 + (c / 64) mod 64; 128 + c mod 64])%N.

Fixpoint str_encode (s : text) : result (list N) :=
  match s with
  | [] => Ok []
  | c :: s' =>
      match utf8_char c, str_encode s' with
      | Some b, Ok bs => Ok (b ++ bs)
      | None, _ => Raise UnicodeEncodeError
      | _, Raise e => Raise e
      end
  end.

(** What running a command does: the process runs to completion with its
    output and return code, or an exception is raised. *)
Inductive launch : Type :=
  | Completed (stdout stderr : text) (returncode : Z)
  | Failed (e : exn).

(** [input_text.encode() if input_text else None] *)
Definition input_bytes (input_text : option text)
    : result (option (list N)) :=
  match input_text with
  | Some ((_ :: _) as t) =>
      match str_encode t with
      | Ok b => Ok (Some b)
      | Raise e => Raise e
      end
  | Some [] | None => Ok None
  end.

Section RunVow.

(** The environment: the behaviour of [subprocess.run(cmd, input=...,
    capture_output=True, text=True)] on a command line and input bytes.
    It may fail with any exception: launching a missing binary raises
    FileNotFoundError, one that may not be executed PermissionError, and
    so on. *)
Variable subprocess_run : list text -> option (list N) -> launch.

(** The body of the [try], then the [except FileNotFoundError] clause;
    any other exception propagates. *)
Definition run_vow_command (args : list text) (input_text : option text)
    : result (text * text * Z) :=
  let cmd := [txt "./target/release/vow"] ++ args in
  let attempt :=
    match input_bytes input_text with
    | Ok input =>
        match subprocess_run cmd input with
        | Completed stdout stderr returncode =>
            Ok (stdout, stderr, returncode)
        | Failed e => Raise e
        end
    | Raise e => Raise e
    end in
  match attempt with
  | Raise FileNotFoundError => Ok ([], txt "vow binary not found", 1%Z)
  | other => other
  end.

End RunVow.

(** How [subprocess.run] behaves in text mode, given what launching the
    command line does when nothing is sent to the process ([popen]).  The
    process is launched first.  With [text=True] the input has to be a
    [str], which [communicate] encodes before it sends it: given [bytes],
    which have no [encode] method, it raises AttributeError. *)
Definition text_mode_run (popen : list text -> launch)
    (cmd : list text) (input : option (list N)) : launch :=
  match popen cmd with
  | Failed e => Failed e
  | Completed stdout stderr returncode =>
      match input with
      | Some _ => Failed AttributeError
      | None => Completed stdout stderr returncode
      end
  end.

(* ===================================================================== *)
(** * Part II.  The analysis engine                                       *)
(* ===================================================================== *)

(** The engine is driven by the test scripts through the [vow] binary and
    through [CodeAnalyzer]; its own source is not among the Python files.
    Its data model and components are therefore modelled from the
    specification, component by component. *)

(** ** Data model *)

(** Modelled from the spec: the severity taxonomy of the absent engine, a
    totally ordered enumeration Low < Medium < High < Critical. *)
Inductive Severity : Type := Low | Medium | High | Critical.

Definition severity_rank (s : Severity) : nat :=
  match s with Low => 0 | Medium => 1 | High => 2 | Critical => 3 end.

(** [a <= b] on severities. *)
Definition severity_leb (a b : Severity) : bool :=
  severity_rank a <=? severity_rank b.

Definition severity_max (a b : Severity) : Severity :=
  if severity_leb a b then b else a.

(** Modelled from the spec: the Issue record of the absent engine.  All of
    severity, message, line and rule are mandatory fields; only the column
    and the suggestion are optional. *)
Record Issue : Type := {
  severity : Severity;
  message : text;
  line : nat;
  column : option nat;
  rule : text;
  suggestion : option text
}.

(** Modelled from the spec: the lexical classes of the absent Lexical
    Context Tracker. *)
Inductive Context : Type :=
  | Code | LineComment | BlockComment | StringLiteral | TemplateLiteral.

Definition is_code (c : Context) : bool :=
  match c with Code => true | _ => false end.

(** Modelled from the spec: the LanguageProfile record of the absent
    engine: line-comment start tokens, block-comment delimiters, string
    quote characters, triple-quote delimiters, the template-literal
    delimiter with its interpolation opener and nesting braces, and the
    escape character. *)
Record LanguageProfile : Type := {
  line_comment : list text;
  block_comment : option (text * text);
  quote_chars : list N;
  triple_quotes : list text;
  template_delim : option N;
  interpolation : option (text * N * N);
  escape_char : option N
}.

(** Modelled from the spec: the languages of the absent engine and their
    profiles, as data. *)
Inductive Language : Type := Python | JavaScript | TypeScript | Rust.

Definition python_profile : LanguageProfile := {|
  line_comment := [txt "#"];
  block_comment := None;
  quote_chars := [34%N; 39%N];
  triple_quotes := [DQ ++ DQ ++ DQ; txt "'''"];
  template_delim := None;
  interpolation := None;
  escape_char := Some 92%N
|}.

Definition javascript_profile : LanguageProfile := {|
  line_comment := [txt "//"];
  block_comment := Some (txt "/*", txt "*/");
  quote_chars := [34%N; 39%N];
  triple_quotes := [];
  template_delim := Some 96%N;
  interpolation := Some (txt "${", 123%N, 125%N);
  escape_char := Some 92%N
|}.

Definition rust_profile : LanguageProfile := {|
  line_comment := [txt "//"];
  block_comment := Some (txt "/*", txt "*/");
  quote_chars := [34%N];
  triple_quotes := [];
  template_delim := None;
  interpolation := None;
  escape_char := Some 92%N
|}.

Definition profile_of (l : Language) : LanguageProfile :=
  match l with
  | Python => python_profile
  | JavaScript | TypeScript => javascript_profile
  | Rust => rust_profile
  end.

(** The extension of a file path: the text after its last dot. *)
Fixpoint extension_from (s : text) (acc : option text) : option text :=
  match s with
  | [] => acc
  | c :: s' =>
      if N.eqb c 46 then extension_from s' (Some [])
      else extension_from s' (option_map (fun e => e ++ [c]) acc)
  end.

Definition extension (file_path : text) : option text :=
  extension_from file_path None.

Definition text_eqb (a b : text) : bool := negb (text_neb a b).

(** Modelled from the spec: the lookup of a language profile by file
    extension in the absent engine. *)
Definition language_of (file_path : text) : option Language :=
  match extension file_path with
  | Some e =>
      if text_eqb e (txt "py") then Some Python
      else if text_eqb e (txt "js") then Some JavaScript
      else if text_eqb e (txt "ts") then Some TypeScript
      else if text_eqb e (txt "rs") then Some Rust
      else None
  | None => None
  end.

(** ** Lexical Context Tracker *)

(** The states of the scanner.  [InString d] remembers the delimiter that
    opened the string: one quote character or a triple quote. *)
Inductive LexState : Type :=
  | InCode
  | InLineComment
  | InBlockComment
  | InString (delim : text)
  | InTemplate.

(** What the tracker says of one offset: its class, and whether it lies in
    a triple-quoted string, which is documentation text for the AI-Text
    analyzer. *)
Record Mark : Type := { ctx : Context; doc : bool }.

Definition mark (c : Context) : Mark := {| ctx := c; doc := false |}.

(** The first of the tokens [ts] that [s] starts with. *)
Fixpoint first_token (ts : list text) (s : text) : option text :=
  match ts with
  | [] => None
  | t :: ts' => if startswith t s then Some t else first_token ts' s
  end.

Definition is_char (o : option N) (c : N) : bool :=
  match o with Some d => N.eqb c d | None => false end.

(** The machine's configuration between two characters: the state, the
    brace depths of the template interpolations the scan is inside of, and
    the characters of a token already recognised that remain to be passed
    over, with their class. *)
Record Scanner : Type := {
  st : LexState;
  depths : list nat;
  pending : nat;
  pending_mark : Mark
}.

Definition go (s : LexState) (ds : list nat) : Scanner :=
  {| st := s; depths := ds; pending := 0; pending_mark := mark Code |}.

Definition go_over (s : LexState) (ds : list nat) (n : nat) (m : Mark)
    : Scanner :=
  {| st := s; depths := ds; pending := n; pending_mark := m |}.

Definition string_mark (p : LanguageProfile) (delim : text) : Mark :=
  {| ctx := StringLiteral;
     doc := existsb (text_eqb delim) (triple_quotes p) |}.

(** Modelled from the spec: one transition of the absent tracker's state
    machine.  The scanner is in state [s] at a character [c], the text
    from there on being [rest] (which starts with [c]); the result is the
    class of [c] and the configuration after it.  An offset is classified
    by the state in which the scanner meets it: the character on which the
    scanner, in Code, meets an opening token is still Code, the rest of
    the token and everything up to and including the closing token belongs
    to the span; the newline that ends a line comment is Code. *)
Definition step (p : LanguageProfile) (s : LexState) (ds : list nat)
    (c : N) (rest : text) : Mark * Scanner :=
  match s with
  | InCode =>
      match first_token (line_comment p) rest with
      | Some t =>
          (mark Code, go_over InLineComment ds (length t - 1) (mark LineComment))
      | None =>
      match (match block_comment p with
             | Some (o, _) => if startswith o rest then Some o else None
             | None => None
             end) with
      | Some o =>
          (mark Code, go_over InBlockComment ds (length o - 1) (mark BlockComment))
      | None =>
      match first_token (triple_quotes p) rest with
      | Some t =>
          (mark Code, go_over (InString t) ds (length t - 1) (string_mark p t))
      | None =>
      if existsb (N.eqb c) (quote_chars p) then (mark Code, go (InString [c]) ds)
      else if is_char (template_delim p) c then (mark Code, go InTemplate ds)
      else
        match interpolation p, ds with
        | Some (_, ob, cb), d :: ds' =>
            if N.eqb c ob then (mark Code, go InCode (S d :: ds'))
            else if N.eqb c cb then
              match d with
              | O => (mark Code, go InTemplate ds')
              | S d' => (mark Code, go InCode (d' :: ds'))
              end
            else (mark Code, go InCode ds)
        | _, _ => (mark Code, go InCode ds)
        end
      end end end
  | InLineComment =>
      if N.eqb c NL then (mark Code, go InCode ds)
      else (mark LineComment, go InLineComment ds)
  | InBlockComment =>
      match block_comment p with
      | Some (_, cl) =>
          if startswith cl rest
          then (mark BlockComment,
                go_over InCode ds (length cl - 1) (mark BlockComment))
          else (mark BlockComment, go InBlockComment ds)
      | None => (mark BlockComment, go InBlockComment ds)
      end
  | InString d =>
      if is_char (escape_char p) c
      then (string_mark p d, go_over (InString d) ds 1 (string_mark p d))
      else if startswith d rest
      then (string_mark p d, go_over InCode ds (length d - 1) (string_mark p d))
      else (string_mark p d, go (InString d) ds)
  | InTemplate =>
      match (match interpolation p with
             | Some (o, _, _) => if startswith o rest then Some o else None
             | None => None
             end) with
      | Some o =>
          (mark TemplateLiteral,
           go_over InCode (0 :: ds) (length o - 1) (mark TemplateLiteral))
      | None =>
          if is_char (template_delim p) c
          then (mark TemplateLiteral, go InCode ds)
          else (mark TemplateLiteral, go InTemplate ds)
      end
  end.

(** Modelled from the spec: the single left-to-right scan of the absent
    tracker.  A text that ends inside a comment or a string is classified
    by the state left open. *)
Fixpoint scan (p : LanguageProfile) (k : Scanner) (s : text) : list Mark :=
  match s with
  | [] => []
  | c :: s' =>
      match pending k with
      | S n =>
          pending_mark k
          :: scan p {| st := st k; depths := depths k; pending := n;
                       pending_mark := pending_mark k |} s'
      | O =>
          let '(m, k') := step p (st k) (depths k) c s in
          m :: scan p k' s'
      end
  end.

Definition marks_of (p : LanguageProfile) (source_text : text) : list Mark :=
  scan p (go InCode []) source_text.

(** Modelled from the spec: [classify] of the absent tracker.  An offset
    past the end of the text has no class. *)
Definition classify (p : LanguageProfile) (source_text : text) (offset : nat)
    : option Context :=
  option_map ctx (marks_of p source_text !! offset).

(** The line, counted from 1, of an offset. *)
Definition line_of (source_text : text) (offset : nat) : nat :=
  S (length (filter (N.eqb NL) (take offset source_text))).

(** ** Rule Catalog *)

Inductive Category : Type := HallucinatedAPI | Security | AIText.

Definition category_eqb (a b : Category) : bool :=
  match a, b with
  | HallucinatedAPI, HallucinatedAPI | Security, Security | AIText, AIText => true
  | _, _ => false
  end.

Definition language_eqb (a b : Language) : bool :=
  match a, b with
  | Python, Python | JavaScript, JavaScript | TypeScript, TypeScript
  | Rust, Rust => true
  | _, _ => false
  end.

(** Modelled from the spec: the pattern of a rule of the absent catalog: a
    literal substring, a regular expression, or the structural matcher
    [receiver.member(] for a member the receiver does not have (with no
    receiver named: [.member(] on any value). *)
Inductive Pattern : Type :=
  | PLiteral (t : text)
  | PRegex (r : re)
  | PMember (receiver : option text) (member : text).

(** Modelled from the spec: the Rule record of the absent catalog. *)
Record Rule : Type := {
  rule_id : text;
  category : Category;
  pattern : Pattern;
  applicable_languages : list Language;
  default_severity : Severity;
  suggestion_template : option text
}.

(** Modelled from the spec: [rules_for(language, category)] of the absent
    catalog: its rules of the category that apply to the language, in
    catalog order. *)
Definition rules_for (catalog : list Rule) (l : Language) (c : Category)
    : list Rule :=
  filter (fun r => category_eqb (category r) c
                   && existsb (language_eqb l) (applicable_languages r))
         catalog.

(** The text a [PMember] pattern looks for. *)
Definition member_call (receiver : option text) (member : text) : text :=
  match receiver with
  | Some r => r ++ txt "." ++ member ++ txt "("
  | None => txt "." ++ member ++ txt "("
  end.

(** Modelled from the spec: pattern matching of the absent analyzers.  The
    pattern has an occurrence that starts where [rest] starts. *)
Definition occurs_at (pat : Pattern) (rest : text) : bool :=
  match pat with
  | PLiteral t => startswith t rest
  | PRegex r => match match_at r rest with Some _ => true | None => false end
  | PMember receiver member => startswith (member_call receiver member) rest
  end.

(** ** Analyzers *)

Definition category_label (c : Category) : text :=
  match c with
  | HallucinatedAPI => txt "hallucinated API: "
  | Security => txt "security: "
  | AIText => txt "machine-generated text: "
  end.

(** Modelled from the spec: the one place where the absent analyzers build
    an Issue for a rule that matched, from the rule and the position. *)
Definition make_issue (r : Rule) (ln col : nat) : Issue := {|
  severity := default_severity r;
  message := category_label (category r) ++ rule_id r;
  line := ln;
  column := Some col;
  rule := rule_id r;
  suggestion := suggestion_template r
|}.

Definition advance_line (c : N) (ln : nat) : nat :=
  if N.eqb c NL then S ln else ln.

Definition advance_col (c : N) (col : nat) : nat :=
  if N.eqb c NL then 1 else S col.

(** Modelled from the spec: one rule of the absent analyzers over the
    text: an Issue for every offset classified as Code at which the rule's
    pattern occurs.  [rest] and [marks] are the text
    and its classification from the current offset on, [ln] and [col] the
    line and column of that offset. *)
Fixpoint match_rule (r : Rule) (rest : text) (marks : list Mark)
    (ln col : nat) : list Issue :=
  match rest, marks with
  | c :: rest', m :: marks' =>
      let found :=
        if is_code (ctx m) && occurs_at (pattern r) rest
        then [make_issue r ln col] else [] in
      found ++ match_rule r rest' marks' (advance_line c ln) (advance_col c col)
  | _, _ => []
  end.

(** Modelled from the spec: the common contract of the absent Hallucinated-API and
    Security analyzers, [analyze(source_text, classify_fn, rule_subset)]. *)
Definition analyze (source_text : text) (marks : list Mark)
    (rule_subset : list Rule) : list Issue :=
  flat_map (fun r => match_rule r source_text marks 1 1) rule_subset.

(** *** AI-Text analyzer *)

Definition is_prose (m : Mark) : bool :=
  match ctx m with
  | LineComment | BlockComment => true
  | StringLiteral => doc m
  | _ => false
  end.

(** A contiguous comment or docstring span: the line it starts on and its
    text. *)
Definition Block : Type := (nat * text)%type.

Definition flush (cur : option Block) : list Block :=
  match cur with Some b => [b] | None => [] end.

(** Modelled from the spec: the comment and docstring spans that the
    absent tracker hands to the AI-Text analyzer: the maximal runs of
    offsets that are comment or documentation text. *)
Fixpoint prose_blocks (rest : text) (marks : list Mark) (ln : nat)
    (cur : option Block) : list Block :=
  match rest, marks with
  | c :: rest', m :: marks' =>
      if is_prose m then
        let cur' := match cur with
                    | Some (start, t) => Some (start, t ++ [c])
                    | None => Some (ln, [c])
                    end in
        prose_blocks rest' marks' (advance_line c ln) cur'
      else flush cur ++ prose_blocks rest' marks' (advance_line c ln) None
  | _, _ => flush cur
  end.

(** ASCII lower case, for the case-insensitive phrase match. *)
Definition lower (c : N) : N :=
  if ((65 <=? c) && (c <=? 90))%N then (c + 32)%N else c.

Fixpoint occurs_in (pat : Pattern) (s : text) : bool :=
  occurs_at pat s ||
  match s with
  | [] => false
  | _ :: s' => occurs_in pat s'
  end.

(** The phrase rules that match somewhere in the block. *)
Definition phrases_in (phrases : list Rule) (block : text) : list Rule :=
  filter (fun r => occurs_in (pattern r) (map lower block)) phrases.

(** The identifier of the aggregated AI-Text Issue. *)
Definition ai_text_rule : text := txt "ai_generated_text".

Definition phrase_threshold : nat := 2.

Definition highest (rs : list Rule) : Severity :=
  fold_right (fun r s => severity_max (default_severity r) s) Low rs.

(** Modelled from the spec: the absent AI-Text analyzer.  The phrase rules
    are distinct catalog entries, so the phrases found in a block are
    distinct; a block with at least [phrase_threshold] of them gives one
    aggregated Issue, at the line on which the block starts. *)
Definition analyze_text (source_text : text) (marks : list Mark)
    (phrases : list Rule) : list Issue :=
  flat_map
    (fun b : Block =>
       let found := phrases_in phrases (snd b) in
       if phrase_threshold <=? length found then
         [ {| severity := highest found;
              message := category_label AIText ++ ai_text_rule;
              line := fst b;
              column := None;
              rule := ai_text_rule;
              suggestion := None |} ]
       else [])
    (prose_blocks source_text marks 1 None).

(** ** Orchestrator *)

(** The analyzers, under the names the configuration file gives them:
    [code] is the Hallucinated-API analyzer, [text] the AI-Text analyzer. *)
Inductive Analyzer : Type := CodeAnalyzer | TextAnalyzer | SecurityAnalyzer.

Definition analyzer_category (a : Analyzer) : Category :=
  match a with
  | CodeAnalyzer => HallucinatedAPI
  | TextAnalyzer => AIText
  | SecurityAnalyzer => Security
  end.

Inductive Format : Type := Json | Human.

(** Modelled from the spec: the EffectiveConfig record of the absent
    engine.  The set of enabled analyzers is kept as the sequence in which
    they are run. *)
Record EffectiveConfig : Type := {
  enabled_analyzers : list Analyzer;
  min_severity : Severity;
  output_format : Format
}.

Inductive Diagnostic : Type := UnsupportedLanguage.

(** Modelled from the spec: the AnalysisResult record of the absent
    engine, with the diagnostic of a file that was skipped. *)
Record AnalysisResult : Type := {
  path : text;
  issues : list Issue;
  diagnostic : option Diagnostic
}.

(** Modelled from the spec: step 3 of the absent Orchestrator for one
    analyzer: the analyzer is handed the text, the shared classification
    and its subset of the catalog. *)
Definition run_analyzer (catalog : list Rule) (l : Language)
    (source_text : text) (marks : list Mark) (a : Analyzer) : list Issue :=
  match a with
  | TextAnalyzer => analyze_text source_text marks (rules_for catalog l AIText)
  | _ => analyze source_text marks (rules_for catalog l (analyzer_category a))
  end.

(** Lexicographic order on rule identifiers. *)
Fixpoint text_leb (a b : text) : bool :=
  match a, b with
  | [], _ => true
  | _ :: _, [] => false
  | x :: a', y :: b' =>
      if (x <? y)%N then true
      else if (x =? y)%N then text_leb a' b'
      else false
  end.

(** Modelled from the spec: the sort order of the absent Orchestrator: by
    line, then by rule identifier. *)
Definition issue_leb (i j : Issue) : bool :=
  if line i <? line j then true
  else if line i =? line j then text_leb (rule i) (rule j)
  else false.

(** Modelled from the spec: the sort of the absent Orchestrator, as a
    stable insertion sort. *)
Fixpoint insert_issue (i : Issue) (l : list Issue) : list Issue :=
  match l with
  | [] => [i]
  | j :: l' => if issue_leb i j then i :: j :: l' else j :: insert_issue i l'
  end.

Definition sort_issues (l : list Issue) : list Issue :=
  fold_right insert_issue [] l.

(** Modelled from the spec: steps 2 to 4 of the absent Orchestrator: the
    merged and sorted issues, before the severity filter. *)
Definition unfiltered (catalog : list Rule) (l : Language)
    (source_text : text) (analyzers : list Analyzer) : list Issue :=
  let marks := marks_of (profile_of l) source_text in
  sort_issues
    (flat_map (run_analyzer catalog l source_text marks) analyzers).

(** Modelled from the spec: step 5 of the absent Orchestrator, the
    severity filter. *)
Definition severity_filter (min : Severity) (l : list Issue) : list Issue :=
  filter (fun i => severity_leb min (severity i)) l.

(** Modelled from the spec: [run(file_path, source_text, effective_config)]
    of the absent Orchestrator, with the rule catalog passed in. *)
Definition run (catalog : list Rule) (file_path source_text : text)
    (effective_config : EffectiveConfig) : AnalysisResult :=
  match language_of file_path with
  | None =>
      {| path := file_path; issues := [];
         diagnostic := Some UnsupportedLanguage |}
  | Some l =>
      {| path := file_path;
         issues := severity_filter (min_severity effective_config)
                     (unfiltered catalog l source_text
                        (enabled_analyzers effective_config));
         diagnostic := None |}
  end.

Definition with_min_severity (c : EffectiveConfig) (s : Severity)
    : EffectiveConfig :=
  {| enabled_analyzers := enabled_analyzers c;
     min_severity := s;
     output_format := output_format c |}.

(** *** A run, step by step *)

(** Modelled from the spec: the state of one run of the absent
    Orchestrator on a file: the classification, computed once and shared
    by the analyzers; the enabled analyzers that have not run yet; and the
    issues collected from those that have.  Nothing else is kept, and
    nothing of it outlives the run. *)
Record RunState : Type := {
  shared_marks : list Mark;
  to_run : list Analyzer;
  collected : list Issue
}.

(** Modelled from the spec: steps 1 and 2 of the absent Orchestrator: a
    run starts from its inputs alone. *)
Definition start_run (l : Language) (source_text : text)
    (effective_config : EffectiveConfig) : RunState :=
  {| shared_marks := marks_of (profile_of l) source_text;
     to_run := enabled_analyzers effective_config;
     collected := [] |}.

(** Modelled from the spec: step 3 of the absent Orchestrator.  The
    enabled analyzers are a set: which of those that remain runs next is
    not fixed.  The one that runs is handed the shared classification and
    its issues are concatenated to those collected. *)
Inductive run_step (catalog : list Rule) (l : Language) (source_text : text)
    : RunState -> RunState -> Prop :=
  | run_next (marks : list Mark) (before after : list Analyzer)
      (a : Analyzer) (got : list Issue) :
      run_step catalog l source_text
        {| shared_marks := marks; to_run := before ++ a :: after;
           collected := got |}
        {| shared_marks := marks; to_run := before ++ after;
           collected := got ++ run_analyzer catalog l source_text marks a |}.

Inductive run_steps (catalog : list Rule) (l : Language) (source_text : text)
    : RunState -> RunState -> Prop :=
  | run_steps_refl (s : RunState) : run_steps catalog l source_text s s
  | run_steps_next (s1 s2 s3 : RunState) :
      run_step catalog l source_text s1 s2 ->
      run_steps catalog l source_text s2 s3 ->
      run_steps catalog l source_text s1 s3.

(** Modelled from the spec: steps 4 to 6 of the absent Orchestrator, once
    every enabled analyzer has run. *)
Definition finish_run (file_path : text) (effective_config : EffectiveConfig)
    (s : RunState) : AnalysisResult :=
  {| path := file_path;
     issues := severity_filter (min_severity effective_config)
                 (sort_issues (collected s));
     diagnostic := None |}.

(** Modelled from the spec: the results that a run of the absent
    Orchestrator on a file can return.  [run] above is the run that takes
    the analyzers in the order of the sequence that represents the set. *)
Inductive Runs (catalog : list Rule) (file_path source_text : text)
    (effective_config : EffectiveConfig) : AnalysisResult -> Prop :=
  | runs_skipped :
      language_of file_path = None ->
      Runs catalog file_path source_text effective_config
        {| path := file_path; issues := [];
           diagnostic := Some UnsupportedLanguage |}
  | runs_finished (l : Language) (s : RunState) :
      language_of file_path = Some l ->
      run_steps catalog l source_text
        (start_run l source_text effective_config) s ->
      to_run s = [] ->
      Runs catalog file_path source_text effective_config
        (finish_run file_path effective_config s).

(** ** The built-in catalog *)

Definition ident_char (c : N) : bool :=
  ((48 <=? c) && (c <=? 57) || (65 <=? c) && (c <=? 90)
   || (97 <=? c) && (c <=? 122) || (c =? 95))%N.

Definition quote_char (c : N) : bool := ((c =? 34) || (c =? 39))%N.

Definition any_char (_ : N) : bool := true.

(** A literal matched without regard to ASCII case. *)
Definition ilit (t : string) : re :=
  seq_re (map (fun x => Cls (fun c => N.eqb (lower c) x)) (txt t)).

Definition wrong_member (receiver member correct : string) : Rule := {|
  rule_id := txt "hallucinated_signature";
  category := HallucinatedAPI;
  pattern := PMember (Some (txt receiver)) (txt member);
  applicable_languages := [Python];
  default_severity := High;
  suggestion_template := Some (txt correct)
|}.

Definition no_method (langs : list Language) (member correct : string)
    : Rule := {|
  rule_id := txt "nonexistent_method";
  category := HallucinatedAPI;
  pattern := PMember None (txt member);
  applicable_languages := langs;
  default_severity := High;
  suggestion_template := Some (txt correct)
|}.

Definition security_rule (name : string) (langs : list Language)
    (p : Pattern) (s : Severity) : Rule := {|
  rule_id := txt name;
  category := Security;
  pattern := p;
  applicable_languages := langs;
  default_severity := s;
  suggestion_template := None
|}.

(** An identifier containing the credential token, assigned a non-empty
    string literal. *)
Definition credential (token : string) : Rule :=
  security_rule "hardcoded_credential" [Python; JavaScript; TypeScript; Rust]
    (PRegex (seq_re [ilit token; Star ident_char; Star is_space;
                     Lit (txt "="); Star is_space; Cls quote_char;
                     Plus (fun c => negb (quote_char c)); Cls quote_char]))
    High.

Definition insecure_url (scheme : string) : Rule :=
  security_rule "insecure_url" [Python; JavaScript; TypeScript; Rust]
    (PRegex (seq_re [Cls quote_char; Lit (txt scheme)])) Medium.

Definition phrase (p : Pattern) : Rule := {|
  rule_id := ai_text_rule;
  category := AIText;
  pattern := p;
  applicable_languages := [Python; JavaScript; TypeScript; Rust];
  default_severity := Low;
  suggestion_template := None
|}.

(** Modelled from the spec: the content of the absent rule catalog, from
    the detections the specification names: the wrong members
    [os.path.exist], [json.parse], [json.stringify], the sequence methods
    that do not exist, the three families of security rules, and the stock
    phrases of the AI-Text analyzer.  The rule identifiers
    [hallucinated_signature] and [nonexistent_method] are those that
    debug_test.py looks for. *)
Definition builtin_catalog : list Rule :=
  [ wrong_member "os.path" "exist" "exists";
    wrong_member "json" "parse" "loads";
    wrong_member "json" "stringify" "dumps";
    no_method [Python] "push" "append";
    no_method [Python] "contains" "in";
    no_method [JavaScript; TypeScript] "flatmap" "flatMap";
    no_method [JavaScript; TypeScript] "append" "push";
    no_method [JavaScript; TypeScript] "contains" "includes";
    security_rule "dangerous_eval" [Python; JavaScript; TypeScript]
      (PLiteral (txt "eval(")) Critical;
    security_rule "dangerous_system_call" [Python]
      (PLiteral (txt "os.system(")) High;
    security_rule "shell_injection" [Python]
      (PRegex (seq_re [Lit (txt "subprocess."); Plus ident_char;
                       Lit (txt "("); Star (not_char ")");
                       Lit (txt "shell=True")])) High;
    credential "key"; credential "secret"; credential "token";
    credential "password";
    insecure_url "http://"; insecure_url "ftp://";
    phrase (PLiteral (txt "as an ai"));
    phrase (PLiteral (txt "cutting-edge"));
    phrase (PLiteral (txt "state-of-the-art"));
    phrase (PLiteral (txt "it's important to note"));
    phrase (PRegex (seq_re [Lit (txt "leverages"); Star any_char;
                            Lit (txt "methodologies")]));
    phrase (PLiteral (txt "delves into the nuanced aspects")) ].

(** What the theorems need of a catalog: no rule has an empty identifier,
    a rule identifier belongs to one category, and the identifier of the
    aggregated AI-Text Issue is used by AI-Text rules only. *)
Definition catalog_ok (catalog : list Rule) : bool :=
  forallb (fun r =>
    negb (text_eqb (rule_id r) [])
    && forallb (fun r' => negb (text_eqb (rule_id r) (rule_id r'))
                          || category_eqb (category r) (category r'))
               catalog
    && (negb (text_eqb (rule_id r) ai_text_rule)
        || category_eqb (category r) AIText))
  catalog.

(** ** Configuration Resolver *)
















Definition builtin_defaults : EffectiveConfig :=
  {| enabled_analyzers := [CodeAnalyzer; TextAnalyzer; SecurityAnalyzer];
     min_severity := Low;
     output_format := Human |}.

(** ** Inputs of the test scripts *)

(** The text [content] that debug_test.py hands to the analyzer as
    [test.js]. *)
Definition debug_content : text :=
  join [NL]
    [ [];
      txt "// Comments should not trigger false positives";
      txt "// This comment mentions arr.flatmap() but shouldn't be flagged";
      [];
      txt "/* ";
      txt " * Multi-line comment with arr.append() example";
      txt " * should also not be flagged";
      txt " */";
      [];
      txt "// String literals containing method names should not be flagged";
      txt "const message = " ++ DQ
        ++ txt "Use arr.push() instead of arr.append()" ++ DQ ++ txt ";";
      txt "console.log(" ++ DQ ++ txt "The flatmap method doesn't exist"
        ++ DQ ++ txt ");";
      [];
      txt "// Template literals";
      txt "const template = `";
      txt "    The method arr.contains() doesn't exist in JavaScript.";
      txt "    Use arr.includes() instead.";
      txt "`;";
      [] ].

(** Lines 8 to 10 of test_hallucinated.py. *)
Definition exist_lines : text :=
  join [NL]
    [ txt "# Wrong os.path method";
      txt "if os.path.exist(" ++ DQ ++ txt "file.txt" ++ DQ
        ++ txt "):  # Should be exists()";
      txt "    print(" ++ DQ ++ txt "File exists" ++ DQ ++ txt ")" ].

(** The call alone. *)
Definition exist_call : text :=
  txt "os.path.exist(" ++ DQ ++ txt "file.txt" ++ DQ ++ txt ")".



(** The test file of [test_severity_filtering] in
    test_severity_config.py. *)
Definition severity_test_content : text :=
  [NL]
  ++ txt "# This file has various issues of different severities" ++ [NL]
  ++ txt "import fake_package_that_does_not_exist  # High severity hallucination"
  ++ [NL]
  ++ txt "password = " ++ DQ ++ txt "hardcoded123" ++ DQ
  ++ txt "  # Medium severity security issue" ++ [NL]
  ++ txt "print(" ++ DQ ++ txt "Hello world" ++ DQ
  ++ txt ")  # This should be fine" ++ [NL].

(** A text in which the Hallucinated-API analyzer and the Security
    analyzer each find an Issue, the former on the earlier line. *)
Definition two_findings : text :=
  txt "ok = os.path.exist(p)" ++ [NL]
  ++ txt "password = 'secret123'" ++ [NL].


(** A configuration that enables the two analyzers of code. *)
Definition code_and_security : EffectiveConfig :=
  {| enabled_analyzers := [CodeAnalyzer; SecurityAnalyzer];
     min_severity := Low;
     output_format := Json |}.

(** ** Relations used to state the properties *)

(** The text a regular expression matches, with the groups it sets. *)
Inductive Den : re -> text -> caps -> caps -> Prop :=
  | den_lit t e : Den (Lit t) t e e
  | den_cls (p : N -> bool) c e : p c = true -> Den (Cls p) [c] e e
  | den_star (p : N -> bool) m e : forallb p m = true -> Den (Star p) m e e
  | den_plus (p : N -> bool) c m e :
      p c = true -> forallb p m = true -> Den (Plus p) (c :: m) e e
  | den_cat a b m1 m2 e e1 e2 :
      Den a m1 e e1 -> Den b m2 e1 e2 -> Den (Cat a b) (m1 ++ m2) e e2
  | den_grp n a m e e1 :
      Den a m e e1 -> Den (Grp n a) m e (set_cap n m e1).

(** [Rewrites piece s t]: the text [t] is the text [s] in which some
    disjoint pieces [m], taken from left to right, have each been replaced
    by a text [out] with [piece m out]; every character outside the pieces
    is kept, in order. *)
Inductive Rewrites (piece : text -> text -> Prop) : text -> text -> Prop :=
  | rw_done : Rewrites piece [] []
  | rw_keep c s t : Rewrites piece s t -> Rewrites piece (c :: s) (c :: t)
  | rw_piece m out s t :
      piece m out -> Rewrites piece s t -> Rewrites piece (m ++ s) (out ++ t).

(** The pieces that fix_missing_suggestions.py rewrites: a [rule: Some(..),]
    field, white space with a newline in it, and [});].  The white space
    is replaced by the suggestion line and a fixed indentation. *)
Definition missing_piece (m out : text) : Prop :=
  exists body ws ws' : text,
    body <> [] /\ forallb (not_char ")") body = true
    /\ forallb is_space ws = true /\ forallb is_space ws' = true
    /\ m = txt "rule: Some(" ++ body ++ txt ")," ++ ws ++ [NL] ++ ws'
           ++ txt "});"
    /\ out = txt "rule: Some(" ++ body ++ txt ")," ++ [NL]
             ++ txt "                        " ++ generic_suggestion
             ++ [NL] ++ txt "                    });".

(** The pieces that add_none_suggestions.py rewrites: from
    [issues.push(Issue {], over characters other than a closing brace, to a
    [rule: Some(..),] field, white space, and a last line [});], which is
    kept with its indentation. *)
Definition none_piece (m out : text) : Prop :=
  exists fields body ws ws' : text,
    forallb (not_char "}") fields = true
    /\ body <> [] /\ forallb (not_char ")") body = true
    /\ forallb is_space ws = true /\ forallb is_space ws' = true
    /\ m = txt "issues.push(Issue {" ++ fields ++ txt "rule: Some(" ++ body
           ++ txt ")," ++ ws ++ [NL] ++ ws' ++ txt "});"
    /\ out = txt "issues.push(Issue {" ++ fields ++ txt "rule: Some(" ++ body
             ++ txt ")," ++ [NL] ++ txt "                        suggestion: None,"
             ++ [NL] ++ ws' ++ txt "});".

(** Inputs on which the two scripts are tried below. *)

(** A [rule:] field and a closing line that belong to no
    [issues.push(Issue {] construction. *)
Definition stray_rule_field : text :=
  txt "rule: Some(x)," ++ [NL] ++ txt "});".

(** An Issue construction that already has a suggestion field (before its
    rule field), and a tab after the rule field. *)
Definition issue_with_suggestion : text :=
  txt "issues.push(Issue { suggestion: None, rule: Some(x)," ++ [9%N; NL]
  ++ txt "});".

(** An Issue construction as the analyzers' Rust sources write it, without
    a suggestion field. *)
Definition issue_without_suggestion : text :=
  join [NL]
    [ txt "            issues.push(Issue {";
      txt "                severity: Severity::High,";
      txt "                message: msg,";
      txt "                line: line_num,";
      txt "                rule: Some(rule_name),";
      txt "            });" ].

(** ** Notions used to state the properties of the effects and of the engine *)

(** [frame P m]: the computation [m] opens for writing only paths that
    satisfy [P], and leaves every other file as it was. *)
Definition frame {A : Type} (P : text -> Prop) (m : M A) : Prop :=
  forall w : fsys,
    Forall P (written (m w).2)
    /\ forall q, ~ P q -> files (m w).1.2 !! q = files w !! q.

(** The paths a script run may write: the [.rs] entries of the analyzer
    directory. *)
Definition analyzer_source (names : list text) (q : text) : Prop :=
  exists name, In name names /\ q = txt "src/analyzers/" ++ name
               /\ endswith (txt ".rs") q = true.

(** A file system on which the scripts are tried: an analyzer source with
    a generic suggestion line, one without, and a file that is not Rust
    source. *)
Definition demo_fs : fsys :=
  {| files :=
       <[ txt "src/analyzers/a.rs" :=
            txt "x," ++ [NL] ++ generic_suggestion ++ [NL] ++ txt "y" ]>
         {[ txt "src/analyzers/b.rs" := txt "keep" ]};
     dirs := {[ analyzer_dir := [txt "a.rs"; txt "b.rs"; txt "notes.txt"] ]} |}.

(** The merged and sorted issues of a file, before the severity filter. *)
Definition unfiltered_issues (catalog : list Rule)
    (file_path source_text : text) (c : EffectiveConfig) : list Issue :=
  match language_of file_path with
  | Some l => unfiltered catalog l source_text (enabled_analyzers c)
  | None => []
  end.

(** Every occurrence of the pattern in the text starts at an offset that
    the tracker classifies as comment, string literal or template
    literal. *)
Definition outside_code (p : LanguageProfile) (source_text : text)
    (pat : Pattern) : Prop :=
  forall o,
    o < length source_text ->
    occurs_at pat (drop o source_text) = true ->
    exists c, classify p source_text o = Some c
              /\ In c [LineComment; BlockComment; StringLiteral;
                       TemplateLiteral].

(** The same, as a test. *)
Definition outside_codeb (p : LanguageProfile) (source_text : text)
    (pat : Pattern) : bool :=
  let marks := marks_of p source_text in
  forallb
    (fun o =>
       implb (occurs_at pat (drop o source_text))
         (match option_map ctx (marks !! o) with
          | Some Code | None => false
          | Some _ => true
          end))
    (seq 0 (length source_text)).

(** The number of newlines in a text. *)
Definition newlines (s : text) : nat := length (filter (N.eqb NL) s).

(** Two issues have the same sort key: the same line and the same rule. *)
Definition same_key (i j : Issue) : bool :=
  (line i =? line j) && text_eqb (rule i) (rule j).

(** The sort order as a relation. *)
Definition issue_le (i j : Issue) : Prop := issue_leb i j = true.

(** The Issue suggests a correction that contains [t]. *)
Definition suggests (t : text) (i : Issue) : bool :=
  match suggestion i with
  | Some s => contains t s
  | None => false
  end.

(** The severities at or above a minimum in the order
    Low < Medium < High < Critical, written out.  For High these are the
    severities that [test_severity_filtering] counts as high or more,
    [["High", "Critical"]]; for Critical, the one it counts as critical. *)
Definition at_or_above (min : Severity) : list Severity :=
  match min with
  | Low => [Low; Medium; High; Critical]
  | Medium => [Medium; High; Critical]
  | High => [High; Critical]
  | Critical => [Critical]
  end.

Definition severity_eqb (a b : Severity) : bool :=
  match a, b with
  | Low, Low | Medium, Medium | High, High | Critical, Critical => true
  | _, _ => false
  end.

(** The severity of the Issue is one of those listed:
    [issue["severity"] in [...]]. *)
Definition severity_in (l : list Severity) (i : Issue) : bool :=
  existsb (severity_eqb (severity i)) l.

(** ** Notions used to state the further properties of the scripts *)

(** The pieces that fix_suggestions.py rewrites: an Issue construction
    with the fields severity, message, line and rule, in this order, each
    of characters other than a closing brace, and the closing [});].  The
    suggestion line is inserted before the closing; nothing is taken
    away. *)
Definition fix_piece (m out : text) : Prop :=
  exists ws0 f1 ws1 f2 ws2 f3 ws3 f4 ws4 : text,
    let fields :=
      txt "issues.push(Issue {" ++ ws0
      ++ txt "severity: " ++ f1 ++ txt "," ++ ws1
      ++ txt "message: " ++ f2 ++ txt "," ++ ws2
      ++ txt "line: " ++ f3 ++ txt "," ++ ws3
      ++ txt "rule: " ++ f4 ++ txt "," ++ ws4 in
    Forall (fun ws => forallb is_space ws = true) [ws0; ws1; ws2; ws3; ws4]
    /\ Forall (fun f => f <> [] /\ forallb (not_char "}") f = true)
         [f1; f2; f3; f4]
    /\ m = fields ++ txt "});"
    /\ out = fields ++ generic_suggestion ++ [NL]
             ++ txt "                    });".

(** The pieces that clean_suggestions.py rewrites: a suggestion field
    after white space, followed by white space and the generic suggestion.
    The field is kept; the white space and the generic suggestion after it
    are deleted. *)
Definition clean_piece (m out : text) : Prop :=
  exists ws1 field ws2 : text,
    ws1 <> [] /\ forallb is_space ws1 = true
    /\ field <> [] /\ forallb (not_char ",") field = true
    /\ ws2 <> [] /\ forallb is_space ws2 = true
    /\ out = ws1 ++ txt "suggestion: " ++ field ++ txt ","
    /\ m = out ++ ws2 ++ generic_suggestion.

(** None of the three literal suggestions of fix_duplicates.py occurs in
    the text. *)
Definition no_generic_suggestion (s : text) : bool :=
  negb (contains generic_suggestion s) && negb (contains html_suggestion s)
  && negb (contains type_suggestion s).

(** The progress line of each script: [print(f"... {file_path}")]. *)
Definition report_of (s : script) : text :=
  match s with
  | FixSuggestions => txt "Fixed "
  | FixMissingSuggestions => txt "Added missing suggestions to "
  | AddNoneSuggestions => txt "Added None suggestions to "
  | CleanSuggestions => txt "Cleaned "
  | FixDuplicates => txt "Removed duplicates from "
  end.

(** The body of the loop that ends each script, for one directory entry. *)
Definition patch_entry (s : script) (file_name : text) : M unit :=
  if endswith (txt ".rs") file_name
  then patch_function s (path_join analyzer_dir file_name)
  else ret tt.

(** The entry is Rust source whose content, in the file system [w], the
    script's transformation changes. *)
Definition changed_by (s : script) (w : fsys) (file_name : text) : bool :=
  endswith (txt ".rs") file_name
  && match files w !! path_join analyzer_dir file_name with
     | Some content => text_neb (transformation s content) content
     | None => false
     end.

(** What a script does for an entry whose content it changes: it writes
    the file and reports it. *)
Definition patched (s : script) (w : fsys) (file_name : text)
    : list effect :=
  if changed_by s w file_name
  then [ Wrote (path_join analyzer_dir file_name);
         Printed (report_of s ++ path_join analyzer_dir file_name) ]
  else [].

(** A UTF-16 surrogate code point, which [str.encode] refuses. *)
Definition is_surrogate (c : N) : bool := ((55296 <=? c) && (c <=? 57343))%N.


(* ===================================================================== *)
(** * Properties                                                          *)
(* ===================================================================== *)

(** ** Text operations *)

Lemma lit_strip_app (t s s' : text) :
  lit_strip t s = Some s' -> s = t ++ s'.
Proof.
  revert s; induction t as [|c t IH]; intros s H; simpl in *.
  - congruence.
  - destruct s as [|d s]; [discriminate|].
    destruct (N.eqb_spec c d); [|discriminate].
    subst. f_equal. auto.
Qed.

Lemma lit_strip_prefix (t s : text) : lit_strip t (t ++ s) = Some s.
Proof.
  induction t as [|c t IH]; simpl; [reflexivity|].
  rewrite N.eqb_refl. exact IH.
Qed.

Lemma startswith_app (t s : text) : startswith t (t ++ s) = true.
Proof. unfold startswith. now rewrite lit_strip_prefix. Qed.

Lemma startswith_inv (t s : text) :
  startswith t s = true -> exists s', s = t ++ s'.
Proof.
  unfold startswith. destruct (lit_strip t s) as [s'|] eqn:E; [|discriminate].
  intros _. exists s'. now apply lit_strip_app.
Qed.

Lemma startswith_trans (t s u : text) :
  startswith t s = true -> startswith t (s ++ u) = true.
Proof.
  intros H. destruct (startswith_inv _ _ H) as [s' ->].
  rewrite <- app_assoc. apply startswith_app.
Qed.

(** ** fix_duplicates.py *)

Lemma split_on_no_sep (sep : N) (s : text) :
  Forall (fun l => ~ In sep l) (split_on sep s).
Proof.
  induction s as [|c s IH]; simpl.
  - constructor; [intros []|constructor].
  - destruct (N.eqb_spec c sep) as [->|Hne].
    + constructor; [intros []|exact IH].
    + destruct (split_on sep s) as [|l ls].
      * constructor; [|constructor].
        intros [->|[]]; congruence.
      * inversion IH; subst. constructor; [|assumption].
        intros [->|Hin]; [congruence|contradiction].
Qed.

Lemma split_on_line (sep : N) (l : text) :
  ~ In sep l -> split_on sep l = [l].
Proof.
  induction l as [|c l IH]; intros H; simpl; [reflexivity|].
  destruct (N.eqb_spec c sep) as [->|Hne].
  - exfalso. apply H. now left.
  - rewrite IH; [reflexivity|]. intros Hin. apply H. now right.
Qed.

Lemma split_on_app_sep (sep : N) (l s : text) :
  ~ In sep l -> split_on sep (l ++ sep :: s) = l :: split_on sep s.
Proof.
  induction l as [|c l IH]; intros H; simpl.
  - now rewrite N.eqb_refl.
  - destruct (N.eqb_spec c sep) as [->|Hne].
    + exfalso. apply H. now left.
    + rewrite IH; [reflexivity|]. intros Hin. apply H. now right.
Qed.

(** Splitting undoes joining, for lines without the separator. *)
Lemma split_on_join (sep : N) (ls : list text) :
  ls <> [] -> Forall (fun l => ~ In sep l) ls ->
  split_on sep (join [sep] ls) = ls.
Proof.
  induction ls as [|l ls IH]; intros Hne Hall; [congruence|].
  inversion Hall as [|? ? Hl Hls]; subst.
  destruct ls as [|l' ls].
  - simpl. now apply split_on_line.
  - change (join [sep] (l :: l' :: ls)) with (l ++ sep :: join [sep] (l' :: ls)).
    rewrite split_on_app_sep by assumption.
    f_equal. apply IH; [discriminate|assumption].
Qed.

Lemma filter_step_fold (ls acc : list text) :
  fold_left filter_step ls acc
  = acc ++ filter (fun l => negb (is_generic_line l)) ls.
Proof.
  revert acc; induction ls as [|l ls IH]; intros acc; simpl.
  - now rewrite app_nil_r.
  - rewrite IH. unfold filter_step, is_generic_line.
    destruct (contains generic_suggestion l); simpl; [reflexivity|].
    destruct (contains html_suggestion l); simpl; [reflexivity|].
    destruct (contains type_suggestion l); simpl; [reflexivity|].
    now rewrite <- app_assoc.
Qed.

Lemma filtered_lines_filter (content : text) :
  filtered_lines_of content
  = filter (fun l => negb (is_generic_line l)) (split_on NL content).
Proof. unfold filtered_lines_of. now rewrite filter_step_fold. Qed.

Lemma filter_sublist {A : Type} (f : A -> bool) (l : list A) :
  sublist (filter f l) l.
Proof.
  induction l as [|x l IH]; simpl; [constructor|].
  destruct (f x); now constructor.
Qed.

Lemma filter_idem {A : Type} (f : A -> bool) (l : list A) :
  filter f (filter f l) = filter f l.
Proof.
  induction l as [|x l IH]; simpl; [reflexivity|].
  destruct (f x) eqn:E; simpl; [rewrite E; f_equal|]; exact IH.
Qed.

Lemma filter_no_sep (sep : N) (f : text -> bool) (ls : list text) :
  Forall (fun l => ~ In sep l) ls ->
  Forall (fun l => ~ In sep l) (filter f ls).
Proof.
  induction 1 as [|l ls Hl Hls IH]; simpl; [constructor|].
  destruct (f l); [constructor|]; assumption.
Qed.

(** C8, as stated, fails on a text all of whose lines are deleted: the
    output is then the empty text, whose one line, the empty line, is not
    among the input's lines. *)
Lemma remove_duplicate_suggestions_counterexample :
  split_on NL generic_suggestion = [generic_suggestion]
  /\ remove_duplicate_suggestions_text generic_suggestion = []
  /\ split_on NL (remove_duplicate_suggestions_text generic_suggestion)
     = [[]]
  /\ ~ sublist (split_on NL
                  (remove_duplicate_suggestions_text generic_suggestion))
               (split_on NL generic_suggestion).
Proof.
  split; [vm_compute; reflexivity|].
  split; [vm_compute; reflexivity|].
  split; [vm_compute; reflexivity|].
  replace (split_on NL (remove_duplicate_suggestions_text generic_suggestion))
    with [@nil N] by (vm_compute; reflexivity).
  replace (split_on NL generic_suggestion) with [generic_suggestion]
    by (vm_compute; reflexivity).
  intros H. apply sublist_cons_r in H as [H|(l' & E & _)].
  - apply sublist_nil_r in H. discriminate.
  - injection E as E _. vm_compute in E. discriminate.
Qed.

(** C8, amended: [remove_duplicate_suggestions] computes the reference
    transformation: split the text on newline, delete every line that
    contains one of the three literal suggestions, and join the remaining
    lines with newline.  The remaining lines are a subsequence of the
    input's lines; they are the lines of the output whenever a line
    remains, and when none remains the output is the empty text; and
    applying the transformation twice equals applying it once. *)
Theorem remove_duplicate_suggestions_reference (content : text) :
  remove_duplicate_suggestions_text content
  = remove_duplicates_reference content
  /\ sublist (filtered_lines_of content) (split_on NL content)
  /\ match filtered_lines_of content with
     | [] => remove_duplicate_suggestions_text content = []
     | _ :: _ =>
         split_on NL (remove_duplicate_suggestions_text content)
         = filtered_lines_of content
         /\ sublist (split_on NL (remove_duplicate_suggestions_text content))
                    (split_on NL content)
     end
  /\ remove_duplicate_suggestions_text
       (remove_duplicate_suggestions_text content)
     = remove_duplicate_suggestions_text content.
Proof.
  assert (Hsplit :
    split_on NL (remove_duplicate_suggestions_text content)
    = match filtered_lines_of content with
      | [] => [[]]
      | l :: ls => l :: ls
      end).
  { unfold remove_duplicate_suggestions_text.
    destruct (filtered_lines_of content) as [|l ls] eqn:E; [reflexivity|].
    apply split_on_join; [discriminate|].
    rewrite <- E, filtered_lines_filter.
    apply filter_no_sep, split_on_no_sep. }
  assert (Hsub : sublist (filtered_lines_of content) (split_on NL content)).
  { rewrite filtered_lines_filter. apply filter_sublist. }
  split; [|split; [|split]].
  - unfold remove_duplicate_suggestions_text, remove_duplicates_reference.
    now rewrite filtered_lines_filter.
  - exact Hsub.
  - destruct (filtered_lines_of content) as [|l ls] eqn:E.
    + unfold remove_duplicate_suggestions_text. now rewrite E.
    + rewrite Hsplit. split; [reflexivity|exact Hsub].
  - unfold remove_duplicate_suggestions_text at 1.
    rewrite (filtered_lines_filter (remove_duplicate_suggestions_text content)).
    rewrite Hsplit.
    destruct (filtered_lines_of content) as [|l ls] eqn:E.
    + unfold remove_duplicate_suggestions_text. rewrite E. reflexivity.
    + rewrite <- E, filtered_lines_filter, filter_idem.
      unfold remove_duplicate_suggestions_text.
      now rewrite filtered_lines_filter.
Qed.

(** ** The matcher and [re.sub] *)

Lemma star_k_sound {R : Type} (p : N -> bool) (s : text)
    (k : text -> option R) (x : R) :
  star_k p s k = Some x ->
  exists m rest, s = m ++ rest /\ forallb p m = true /\ k rest = Some x.
Proof.
  induction s as [|c s IH]; simpl; intros H.
  - exists [], []. auto.
  - destruct (p c) eqn:Hp.
    + destruct (star_k p s k) as [r|] eqn:E.
      * destruct (IH H) as (m & rest & -> & Hm & Hk).
        exists (c :: m), rest. simpl. rewrite Hp, Hm.
        repeat split; congruence.
      * exists [], (c :: s). auto.
    + exists [], (c :: s). auto.
Qed.

(** What the matcher accepts is a match: the text splits into the part
    matched, which the expression denotes, and the rest, on which the
    continuation succeeded. *)
Lemma rmatch_sound {R : Type} (r : re) :
  forall (s : text) (e : caps) (k : text -> caps -> option R) (x : R),
    rmatch r s e k = Some x ->
    exists m rest e', s = m ++ rest /\ Den r m e e' /\ k rest e' = Some x.
Proof.
  induction r as [t|p|p|p|a IHa b IHb|n a IHa]; intros s e k x H; simpl in H.
  - destruct (lit_strip t s) as [s'|] eqn:E; [|discriminate].
    exists t, s', e. repeat split; [now apply lit_strip_app|constructor|exact H].
  - destruct s as [|c s]; [discriminate|].
    destruct (p c) eqn:Hp; [|discriminate].
    exists [c], s, e. repeat split; [now constructor|exact H].
  - destruct (star_k_sound _ _ _ _ H) as (m & rest & -> & Hm & Hk).
    exists m, rest, e. repeat split; [now constructor|exact Hk].
  - destruct s as [|c s]; [discriminate|].
    destruct (p c) eqn:Hp; [|discriminate].
    destruct (star_k_sound _ _ _ _ H) as (m & rest & -> & Hm & Hk).
    exists (c :: m), rest, e. repeat split; [now constructor|exact Hk].
  - destruct (IHa _ _ _ _ H) as (m1 & rest1 & e1 & -> & Ha & H1).
    destruct (IHb _ _ _ _ H1) as (m2 & rest2 & e2 & -> & Hb & H2).
    exists (m1 ++ m2), rest2, e2.
    repeat split; [now rewrite app_assoc|econstructor; eassumption|exact H2].
  - destruct (IHa _ _ _ _ H) as (m & rest & e1 & -> & Ha & H1).
    exists m, rest, (set_cap n m e1). repeat split; [now constructor|].
    replace (take (length (m ++ rest) - length rest) (m ++ rest)) with m in H1;
      [exact H1|].
    rewrite length_app, Nat.add_sub, take_app_length. reflexivity.
Qed.

Lemma match_at_sound (r : re) (s rest : text) (e : caps) :
  match_at r s = Some (e, rest) ->
  exists m, s = m ++ rest /\ Den r m no_caps e.
Proof.
  unfold match_at. intros H.
  destruct (rmatch_sound _ _ _ _ _ H) as (m & rest' & e' & -> & HD & Hk).
  inversion Hk; subst. eauto.
Qed.

Lemma re_sub_from_skip (r : re) (repl : text -> caps -> text) :
  forall (n : nat) (s : text),
    n <= length s ->
    re_sub_from r repl n s = re_sub_from r repl 0 (drop n s).
Proof.
  induction n as [|n IH]; intros s Hn; [reflexivity|].
  destruct s as [|c s]; simpl in *; [lia|].
  apply IH. lia.
Qed.

Section Substitution.

Variable r : re.
Variable repl : text -> caps -> text.
Variable piece : text -> text -> Prop.

(** Every match of the pattern is a non-empty piece, and the
    replacement function rewrites it as [piece] says. *)
Hypothesis match_piece :
  forall m e, Den r m no_caps e -> m <> [] /\ piece m (repl m e).

Lemma re_sub_rewrites_upto (n : nat) :
  forall s : text, length s <= n -> Rewrites piece s (re_sub r repl s).
Proof.
  unfold re_sub.
  induction n as [|n IH]; intros s Hs.
  - destruct s; [constructor|simpl in Hs; lia].
  - destruct s as [|c s]; [constructor|].
    cbn [re_sub_from].
    destruct (match_at r (c :: s)) as [[e rest]|] eqn:E.
    + destruct (match_at_sound _ _ _ _ E) as (m & Hsplit & HD).
      destruct (match_piece _ _ HD) as [Hne Hp].
      destruct m as [|c' m]; [congruence|].
      simpl in Hsplit. injection Hsplit as <- ->.
      replace (length (c :: m ++ rest) - length rest) with (S (length m))
        by (simpl; rewrite length_app; lia).
      replace (take (S (length m)) (c :: m ++ rest)) with (c :: m)
        by (simpl; now rewrite take_app_length).
      rewrite re_sub_from_skip by (rewrite length_app; lia).
      rewrite drop_app_length.
      apply (rw_piece piece (c :: m) (repl (c :: m) e) rest); [exact Hp|].
      apply IH. simpl in Hs. rewrite length_app in Hs. lia.
    + constructor. apply IH. simpl in Hs. lia.
Qed.

Lemma re_sub_rewrites (s : text) : Rewrites piece s (re_sub r repl s).
Proof. now apply (re_sub_rewrites_upto (length s)). Qed.

End Substitution.

Lemma den_cat_inv (a b : re) (m : text) (e e2 : caps) :
  Den (Cat a b) m e e2 ->
  exists m1 m2 e1, m = m1 ++ m2 /\ Den a m1 e e1 /\ Den b m2 e1 e2.
Proof. inversion 1; subst. eauto 10. Qed.

Lemma den_grp_inv (n : nat) (a : re) (m : text) (e e2 : caps) :
  Den (Grp n a) m e e2 -> exists e1, Den a m e e1 /\ e2 = set_cap n m e1.
Proof. inversion 1; subst. eauto. Qed.

Lemma den_lit_inv (t m : text) (e e2 : caps) :
  Den (Lit t) m e e2 -> m = t /\ e2 = e.
Proof. inversion 1; subst. auto. Qed.

Lemma den_star_inv (p : N -> bool) (m : text) (e e2 : caps) :
  Den (Star p) m e e2 -> forallb p m = true /\ e2 = e.
Proof. inversion 1; subst. auto. Qed.

Lemma den_plus_inv (p : N -> bool) (m : text) (e e2 : caps) :
  Den (Plus p) m e e2 -> m <> [] /\ forallb p m = true /\ e2 = e.
Proof.
  inversion 1 as [| | |q c m' e' Hc Hm| |]; subst.
  repeat split; [discriminate|].
  simpl. now rewrite Hc, Hm.
Qed.

(** Takes a hypothesis [Den r m e e'] with a pattern [r] apart, piece by
    piece. *)
Ltac den_inv H :=
  match type of H with
  | Den (Cat _ _) _ _ _ =>
      let m1 := fresh "m" in
      let m2 := fresh "m" in
      let e1 := fresh "e" in
      let H1 := fresh "H" in
      let H2 := fresh "H" in
      apply den_cat_inv in H as (m1 & m2 & e1 & -> & H1 & H2);
      den_inv H1; den_inv H2
  | Den (Grp _ _) _ _ _ =>
      let e1 := fresh "e" in
      let H1 := fresh "H" in
      apply den_grp_inv in H as (e1 & H1 & ->); den_inv H1
  | Den (Lit _) _ _ _ => apply den_lit_inv in H as [-> ->]
  | Den (Star _) _ _ _ =>
      let H1 := fresh "Hstar" in apply den_star_inv in H as [H1 ->]
  | Den (Plus _) _ _ _ =>
      let H1 := fresh "Hne" in
      let H2 := fresh "Hplus" in
      apply den_plus_inv in H as (H1 & H2 & ->)
  end.

(** ** fix_missing_suggestions.py and add_none_suggestions.py *)

Lemma missing_pattern_piece (m : text) (e : caps) :
  Den missing_pattern m no_caps e ->
  m <> [] /\ missing_piece m (missing_repl m e).
Proof.
  unfold missing_pattern. cbn [seq_re]. intros H. den_inv H.
  split; [discriminate|].
  unfold missing_piece, missing_repl, set_cap. cbn [Nat.eqb].
  eexists _, _, _.
  refine (conj _ (conj _ (conj _ (conj _ (conj _ _))))).
  5: rewrite <- !app_assoc; reflexivity.
  5: rewrite <- !app_assoc; reflexivity.
  all: assumption.
Qed.

Lemma none_pattern_piece (m : text) (e : caps) :
  Den none_pattern m no_caps e ->
  m <> [] /\ none_piece m (none_repl m e).
Proof.
  unfold none_pattern. cbn [seq_re]. intros H. den_inv H.
  split; [discriminate|].
  unfold none_piece, none_repl, set_cap. cbn [Nat.eqb].
  eexists _, _, _, _.
  refine (conj _ (conj _ (conj _ (conj _ (conj _ (conj _ _)))))).
  6: rewrite <- !app_assoc; reflexivity.
  6: rewrite <- !app_assoc; reflexivity.
  all: assumption.
Qed.

(** C7, as stated, fails.  [add_missing_suggestions] rewrites a [rule:]
    field followed by [});] that belongs to no [issues.push(Issue {]
    construction; [add_none_suggestions] adds a suggestion field to an
    Issue that already has one, and it does not only insert: the tab after
    the rule field is gone from its output. *)
Lemma suggestion_patches_counterexample :
  contains (txt "issues.push(Issue {") stray_rule_field = false
  /\ add_missing_suggestions_text stray_rule_field
     = txt "rule: Some(x)," ++ [NL] ++ txt "                        "
       ++ generic_suggestion ++ [NL] ++ txt "                    });"
  /\ add_missing_suggestions_text stray_rule_field <> stray_rule_field
  /\ contains (txt "suggestion: None,") issue_with_suggestion = true
  /\ add_none_suggestions_text issue_with_suggestion
     = txt "issues.push(Issue { suggestion: None, rule: Some(x)," ++ [NL]
       ++ txt "                        suggestion: None," ++ [NL] ++ txt "});"
  /\ existsb (N.eqb 9%N) issue_with_suggestion = true
  /\ existsb (N.eqb 9%N) (add_none_suggestions_text issue_with_suggestion)
     = false.
Proof.
  split; [vm_compute; reflexivity|].
  split; [vm_compute; reflexivity|].
  split; [intros H; apply (f_equal (@length N)) in H; vm_compute in H;
          discriminate|].
  split; [vm_compute; reflexivity|].
  split; [vm_compute; reflexivity|].
  split; vm_compute; reflexivity.
Qed.

Lemma contains_unfold (k s : text) :
  contains k s
  = startswith k s
    || match s with
       | [] => false
       | _ :: s' => contains k s'
       end.
Proof. destruct s; reflexivity. Qed.

Lemma contains_app_l (k m s : text) :
  contains k m = true -> contains k (m ++ s) = true.
Proof.
  induction m as [|c m IH]; intros H;
    rewrite contains_unfold in H; apply orb_true_iff in H;
    rewrite contains_unfold; apply orb_true_iff.
  - destruct H as [H|H]; [|discriminate].
    left. exact (startswith_trans k [] s H).
  - change ((c :: m) ++ s) with (c :: (m ++ s)).
    destruct H as [H|H].
    + left. exact (startswith_trans k (c :: m) s H).
    + right. auto.
Qed.

Lemma contains_suffix (k a : text) : contains k (a ++ k) = true.
Proof.
  induction a as [|c a IH]; rewrite contains_unfold; apply orb_true_iff.
  - left. change ([] ++ k) with k.
    rewrite <- (app_nil_r k) at 2. apply startswith_app.
  - right. exact IH.
Qed.

(** A text without any piece is rewritten to itself. *)
Lemma rewrites_unchanged (piece : text -> text -> Prop) (k : text) :
  (forall m out, piece m out -> contains k m = true) ->
  forall s t, Rewrites piece s t -> contains k s = false -> t = s.
Proof.
  intros Hk s t H. induction H as [|c s t H IH|m out s t Hp H IH]; intros Hc.
  - reflexivity.
  - f_equal. apply IH. rewrite contains_unfold in Hc.
    apply orb_false_iff in Hc. tauto.
  - rewrite (contains_app_l k m s (Hk m out Hp)) in Hc. discriminate.
Qed.

Lemma missing_piece_closing (m out : text) :
  missing_piece m out -> contains (txt "});") m = true.
Proof.
  intros (body & ws & ws' & _ & _ & _ & _ & -> & _).
  rewrite !app_assoc. apply contains_suffix.
Qed.

Lemma none_piece_closing (m out : text) :
  none_piece m out -> contains (txt "});") m = true.
Proof.
  intros (fields & body & ws & ws' & _ & _ & _ & _ & _ & -> & _).
  rewrite !app_assoc. apply contains_suffix.
Qed.

(** C7, amended: for every input text, [add_missing_suggestions] and
    [add_none_suggestions] change the text only by rewriting disjoint
    pieces, from left to right, and keep every character outside the
    pieces, in order.  A piece of [add_missing_suggestions] is a
    [rule: Some(..),] field, white space with a newline, and [});]; a
    piece of [add_none_suggestions] starts at [issues.push(Issue {] and
    reaches, over characters other than a closing brace, such a field,
    white space and a closing line [});].  The piece keeps its text up to
    the rule field and gets a newline and the suggestion line in place of
    the white space before the closing line.  A text in which [});] does
    not occur is left as it is. *)
Theorem suggestion_patches_rewrite (content : text) :
  Rewrites missing_piece content (add_missing_suggestions_text content)
  /\ Rewrites none_piece content (add_none_suggestions_text content)
  /\ (contains (txt "});") content = false ->
      add_missing_suggestions_text content = content
      /\ add_none_suggestions_text content = content).
Proof.
  assert (H1 : Rewrites missing_piece content
                 (add_missing_suggestions_text content)).
  { apply re_sub_rewrites. exact missing_pattern_piece. }
  assert (H2 : Rewrites none_piece content
                 (add_none_suggestions_text content)).
  { apply re_sub_rewrites. exact none_pattern_piece. }
  split; [exact H1|]. split; [exact H2|].
  intros Hc. split.
  - exact (rewrites_unchanged _ _ missing_piece_closing _ _ H1 Hc).
  - exact (rewrites_unchanged _ _ none_piece_closing _ _ H2 Hc).
Qed.

Lemma suggestion_patches_rewrite_witness :
  add_missing_suggestions_text (txt "fn main() { run(); }")
  = txt "fn main() { run(); }"
  /\ add_none_suggestions_text (txt "fn main() { run(); }")
     = txt "fn main() { run(); }".
Proof.
  apply (proj2 (proj2 (suggestion_patches_rewrite
                         (txt "fn main() { run(); }")))).
  vm_compute. reflexivity.
Defined.

(** The scripts on an Issue construction of the analyzers' sources. *)
Lemma patches_on_issue_construction :
  add_none_suggestions_text issue_without_suggestion
  = join [NL]
      [ txt "            issues.push(Issue {";
        txt "                severity: Severity::High,";
        txt "                message: msg,";
        txt "                line: line_num,";
        txt "                rule: Some(rule_name),";
        txt "                        suggestion: None,";
        txt "            });" ]
  /\ add_missing_suggestions_text issue_without_suggestion
     = join [NL]
         [ txt "            issues.push(Issue {";
           txt "                severity: Severity::High,";
           txt "                message: msg,";
           txt "                line: line_num,";
           txt "                rule: Some(rule_name),";
           txt "                        " ++ generic_suggestion;
           txt "                    });" ]
  /\ fix_issues_text issue_without_suggestion
     = join [NL]
         [ txt "            issues.push(Issue {";
           txt "                severity: Severity::High,";
           txt "                message: msg,";
           txt "                line: line_num,";
           txt "                rule: Some(rule_name),";
           txt "            " ++ generic_suggestion;
           txt "                    });" ]
  /\ remove_duplicate_suggestions_text
       (add_missing_suggestions_text issue_without_suggestion)
     = join [NL]
         [ txt "            issues.push(Issue {";
           txt "                severity: Severity::High,";
           txt "                message: msg,";
           txt "                line: line_num,";
           txt "                rule: Some(rule_name),";
           txt "                    });" ]
  /\ clean_duplicates_text
       (add_missing_suggestions_text
          (add_none_suggestions_text issue_without_suggestion))
     = add_none_suggestions_text issue_without_suggestion.
Proof. repeat apply conj; vm_compute; reflexivity. Qed.

(** ** File effects of the patch scripts *)

Lemma written_app (l1 l2 : list effect) :
  written (l1 ++ l2) = written l1 ++ written l2.
Proof.
  induction l1 as [|[p|t] l1 IH]; simpl; [reflexivity| |]; now rewrite IH.
Qed.

Lemma frame_ret {A : Type} (P : text -> Prop) (a : A) : frame P (ret a).
Proof. intros w. simpl. split; [constructor|reflexivity]. Qed.

Lemma frame_bind {A B : Type} (P : text -> Prop) (m : M A) (k : A -> M B) :
  frame P m -> (forall a, frame P (k a)) -> frame P (bind m k).
Proof.
  intros Hm Hk w. unfold bind.
  destruct (Hm w) as [Hw Hq].
  destruct (m w) as [[[a|e] w1] l1]; simpl in *; [|auto].
  destruct (Hk a w1) as [Hw2 Hq2].
  destruct (k a w1) as [[r w2] l2]; simpl in *.
  split.
  - rewrite written_app. apply Forall_app. auto.
  - intros q Hn. rewrite Hq2, Hq; auto.
Qed.

Lemma frame_for_each {A : Type} (P : text -> Prop) (l : list A)
    (body : A -> M unit) :
  (forall x, In x l -> frame P (body x)) -> frame P (for_each l body).
Proof.
  induction l as [|x l IH]; intros Hb; simpl.
  - apply frame_ret.
  - apply frame_bind; [apply Hb; now left|].
    intros _. apply IH. intros y Hy. apply Hb. now right.
Qed.

Lemma text_neb_false (a b : text) : text_neb a b = false <-> a = b.
Proof. unfold text_neb. destruct (decide (a = b)); split; congruence. Qed.

Lemma text_neb_true (a b : text) : text_neb a b = true <-> a <> b.
Proof. unfold text_neb. destruct (decide (a = b)); split; congruence. Qed.

(** What a per-file patch function does, case by case. *)
Lemma patch_file_cases (transform : text -> text) (report path : text)
    (w : fsys) :
  patch_file transform report path w
  = match files w !! path with
    | None => (Raise FileNotFoundError, w, [])
    | Some content =>
        if text_neb (transform content) content
        then (Ok tt,
              {| files := <[path := transform content]> (files w);
                 dirs := dirs w |},
              [Wrote path; Printed (report ++ path)])
        else (Ok tt, w, [])
    end.
Proof.
  unfold patch_file, bind, read_file.
  destruct (files w !! path) as [content|]; [|reflexivity].
  destruct (text_neb (transform content) content); reflexivity.
Qed.

Lemma frame_patch_file (P : text -> Prop) (transform : text -> text)
    (report path : text) :
  P path -> frame P (patch_file transform report path).
Proof.
  intros HP w. rewrite patch_file_cases.
  destruct (files w !! path) as [content|]; simpl;
    [|split; [constructor|reflexivity]].
  destruct (text_neb (transform content) content); simpl.
  - split; [repeat constructor; exact HP|].
    intros q Hq. apply lookup_insert_ne. intros ->. contradiction.
  - split; [constructor|reflexivity].
Qed.

Lemma patch_function_patch_file (s : script) :
  exists report, patch_function s = patch_file (transformation s) report.
Proof. destruct s; eexists; reflexivity. Qed.

Lemma endswith_app (t a s : text) :
  endswith t s = true -> endswith t (a ++ s) = true.
Proof.
  unfold endswith. intros H. rewrite rev_app_distr.
  now apply startswith_trans.
Qed.

Lemma contains_startswith (t s : text) :
  contains t s = false -> startswith t s = false.
Proof.
  destruct s; simpl; intros H; apply orb_false_iff in H; tauto.
Qed.

Lemma path_join_analyzer_dir (name : text) :
  contains (txt "/") name = false ->
  path_join analyzer_dir name = txt "src/analyzers/" ++ name.
Proof.
  intros H. unfold path_join. rewrite (contains_startswith _ _ H).
  reflexivity.
Qed.

(** C9: each per-file patch function opens for writing only the path it
    was given and changes no other file; it writes only when the
    transformed content differs from the content it read, and then writes
    the transformed content there; when the transformation leaves the
    content as it is, the file system is untouched and nothing is written
    or printed.  A script run passes to it only the entries of
    [src/analyzers] whose name ends in [.rs], so every path it writes is
    such an entry and every other file is left as it was. *)
Theorem patch_scripts_frame (s : script) :
  (forall (path : text) (w : fsys),
     Forall (eq path) (written (patch_function s path w).2)
     /\ (forall q, q <> path ->
           files (patch_function s path w).1.2 !! q = files w !! q)
     /\ (forall content,
           files w !! path = Some content ->
           transformation s content = content ->
           patch_function s path w = (Ok tt, w, []))
     /\ (forall content,
           files w !! path = Some content ->
           transformation s content <> content ->
           written (patch_function s path w).2 = [path]
           /\ files (patch_function s path w).1.2
              = <[path := transformation s content]> (files w)))
  /\ (forall (w : fsys) (names : list text),
        dirs w !! analyzer_dir = Some names ->
        Forall (fun name => contains (txt "/") name = false) names ->
        Forall (analyzer_source names) (written (run_script s w).2)
        /\ forall q, ~ analyzer_source names q ->
             files (run_script s w).1.2 !! q = files w !! q).
Proof.
  destruct (patch_function_patch_file s) as [report Hpf].
  split.
  - intros path w.
    destruct (frame_patch_file (eq path) (transformation s) report path
                eq_refl w) as [Hw Hq].
    rewrite Hpf.
    split; [exact Hw|].
    split; [intros q Hne; apply Hq; congruence|].
    split; intros content Hc Ht; rewrite patch_file_cases, Hc.
    + apply text_neb_false in Ht. now rewrite Ht.
    + apply text_neb_true in Ht. rewrite Ht. simpl. auto.
  - intros w names Hd Hnames.
    assert (Hbody : forall name, In name names ->
              frame (analyzer_source names)
                (if endswith (txt ".rs") name
                 then patch_function s (path_join analyzer_dir name)
                 else ret tt)).
    { intros name Hin.
      destruct (endswith (txt ".rs") name) eqn:Hrs; [|apply frame_ret].
      rewrite Hpf. apply frame_patch_file.
      assert (Hslash : contains (txt "/") name = false).
      { rewrite Forall_forall in Hnames. now apply Hnames. }
      exists name. rewrite (path_join_analyzer_dir _ Hslash).
      repeat split; [exact Hin|]. now apply endswith_app. }
    pose proof (frame_for_each (analyzer_source names) names _ Hbody w)
      as [Hw Hq].
    unfold run_script, patch_all, bind, listdir. rewrite Hd.
    destruct (for_each names _ w) as [[r w2] l2]. simpl in *. auto.
Qed.

Lemma patch_scripts_frame_witness :
  Forall (analyzer_source [txt "a.rs"; txt "b.rs"; txt "notes.txt"])
    (written (run_script FixDuplicates demo_fs).2)
  /\ patch_function FixDuplicates (txt "src/analyzers/b.rs") demo_fs
     = (Ok tt, demo_fs, [])
  /\ written (patch_function FixDuplicates (txt "src/analyzers/a.rs")
                demo_fs).2
     = [txt "src/analyzers/a.rs"].
Proof.
  split; [|split].
  - apply (proj2 (patch_scripts_frame FixDuplicates) demo_fs).
    + apply lookup_singleton_eq.
    + repeat constructor.
  - apply (proj1 (proj2 (proj2 (proj1 (patch_scripts_frame FixDuplicates)
             (txt "src/analyzers/b.rs") demo_fs))) (txt "keep")).
    + simpl. rewrite lookup_insert_ne by discriminate.
      apply lookup_singleton_eq.
    + vm_compute. reflexivity.
  - apply (proj2 (proj2 (proj2 (proj1 (patch_scripts_frame FixDuplicates)
             (txt "src/analyzers/a.rs") demo_fs)))
             (txt "x," ++ [NL] ++ generic_suggestion ++ [NL] ++ txt "y")).
    + simpl. apply lookup_insert_eq.
    + intros H. apply (f_equal (@length N)) in H. vm_compute in H.
      discriminate.
Defined.

(** ** [run_vow_command] *)

(** C10, as stated, fails.  When launching the binary raises an exception
    other than FileNotFoundError, here PermissionError, [run_vow_command]
    returns no stdout, stderr and return code: the exception goes on to
    the caller.  And when it is given a non-empty input text and the
    process is launched, it raises AttributeError instead of returning what
    the process wrote. *)
Lemma run_vow_command_counterexample :
  run_vow_command (fun _ _ => Failed PermissionError)
    [txt "check"; txt "test.py"] None
  = Raise PermissionError
  /\ run_vow_command
       (text_mode_run (fun _ => Completed (txt "ok") [] 0%Z))
       [txt "check"; txt "test.py"] (Some (txt "x"))
     = Raise AttributeError.
Proof. split; vm_compute; reflexivity. Qed.

(** C10, amended: [run_vow_command] never lets a FileNotFoundError out.
    For every argument list and optional input text, when running the
    binary raises FileNotFoundError the result is the triple of the empty
    text, [vow binary not found] and 1; when [subprocess.run] returns, the
    result is exactly its stdout, stderr and return code; and any other
    exception it raises goes on to the caller. *)
Theorem run_vow_command_file_not_found
    (subprocess_run : list text -> option (list N) -> launch)
    (args : list text) (input_text : option text) :
  run_vow_command subprocess_run args input_text <> Raise FileNotFoundError
  /\ (forall input,
        input_bytes input_text = Ok input ->
        subprocess_run ([txt "./target/release/vow"] ++ args) input
        = Failed FileNotFoundError ->
        run_vow_command subprocess_run args input_text
        = Ok ([], txt "vow binary not found", 1%Z))
  /\ (forall input stdout stderr returncode,
        input_bytes input_text = Ok input ->
        subprocess_run ([txt "./target/release/vow"] ++ args) input
        = Completed stdout stderr returncode ->
        run_vow_command subprocess_run args input_text
        = Ok (stdout, stderr, returncode))
  /\ (forall input e,
        input_bytes input_text = Ok input ->
        subprocess_run ([txt "./target/release/vow"] ++ args) input
        = Failed e ->
        e <> FileNotFoundError ->
        run_vow_command subprocess_run args input_text = Raise e).
Proof.
  unfold run_vow_command.
  split; [|split; [|split]].
  - destruct (input_bytes input_text) as [input|[]]; try discriminate.
    destruct (subprocess_run _ input) as [o e c|[]]; discriminate.
  - intros input Hi Hr. now rewrite Hi, Hr.
  - intros input o e c Hi Hr. now rewrite Hi, Hr.
  - intros input e Hi Hr He. rewrite Hi, Hr. destruct e; congruence.
Qed.

Lemma run_vow_command_file_not_found_witness :
  run_vow_command (fun _ _ => Failed FileNotFoundError)
    [txt "check"; txt "test.py"] None
  = Ok ([], txt "vow binary not found", 1%Z)
  /\ run_vow_command
       (fun cmd _ => Completed (concat cmd) [] 0%Z)
       [txt "check"] None
     = Ok (txt "./target/release/vowcheck", [], 0%Z)
  /\ run_vow_command (fun _ _ => Failed OSError) [txt "check"] None
     = Raise OSError.
Proof.
  split; [|split].
  - apply (proj1 (proj2 (run_vow_command_file_not_found
             (fun _ _ => Failed FileNotFoundError)
             [txt "check"; txt "test.py"] None)) None);
      vm_compute; reflexivity.
  - apply (proj1 (proj2 (proj2 (run_vow_command_file_not_found
             (fun cmd _ => Completed (concat cmd) [] 0%Z)
             [txt "check"] None))) None);
      vm_compute; reflexivity.
  - apply (proj2 (proj2 (proj2 (run_vow_command_file_not_found
             (fun _ _ => Failed OSError) [txt "check"] None))) None);
      [reflexivity|reflexivity|discriminate].
Defined.

(** With a non-empty input text the bytes that [run_vow_command] passes
    make [subprocess.run], in text mode, raise AttributeError once the
    process is launched: the output of the process is not returned. *)
Lemma run_vow_command_bytes_input (popen : list text -> launch)
    (args : list text) :
  run_vow_command (text_mode_run popen) args (Some (txt "x"))
  = match popen ([txt "./target/release/vow"] ++ args) with
    | Completed _ _ _ => Raise AttributeError
    | Failed FileNotFoundError => Ok ([], txt "vow binary not found", 1%Z)
    | Failed e => Raise e
    end.
Proof.
  unfold run_vow_command, text_mode_run.
  replace (input_bytes (Some (txt "x")))
    with (@Ok (option (list N)) (Some [120%N])) by (vm_compute; reflexivity).
  destruct (popen _) as [o e c|[]]; reflexivity.
Qed.

(** ** Severity filtering *)

Lemma severity_leb_trans (a b c : Severity) :
  severity_leb a b = true -> severity_leb b c = true ->
  severity_leb a c = true.
Proof.
  unfold severity_leb. rewrite !Nat.leb_le. lia.
Qed.

Lemma severity_filter_low (l : list Issue) : severity_filter Low l = l.
Proof.
  unfold severity_filter. induction l as [|i l IH]; simpl; [reflexivity|].
  now rewrite IH.
Qed.

Lemma severity_filter_twice (a b : Severity) (l : list Issue) :
  severity_leb a b = true ->
  severity_filter b (severity_filter a l) = severity_filter b l.
Proof.
  intros Hab. unfold severity_filter.
  induction l as [|i l IH]; simpl; [reflexivity|].
  destruct (severity_leb a (severity i)) eqn:Ea; simpl.
  - now rewrite IH.
  - destruct (severity_leb b (severity i)) eqn:Eb; [|exact IH].
    rewrite (severity_leb_trans _ _ _ Hab Eb) in Ea. discriminate.
Qed.

Lemma run_issues (catalog : list Rule) (file_path source_text : text)
    (c : EffectiveConfig) :
  issues (run catalog file_path source_text c)
  = severity_filter (min_severity c)
      (unfiltered_issues catalog file_path source_text c).
Proof.
  unfold run, unfiltered_issues.
  destruct (language_of file_path); reflexivity.
Qed.

Lemma severity_eqb_eq (a b : Severity) : severity_eqb a b = true <-> a = b.
Proof. destruct a, b; simpl; split; congruence. Qed.

Lemma severity_in_In (l : list Severity) (i : Issue) :
  severity_in l i = true <-> In (severity i) l.
Proof.
  unfold severity_in. rewrite existsb_exists. split.
  - intros (x & Hx & E). apply severity_eqb_eq in E. now rewrite E.
  - intros H. exists (severity i). split; [exact H|].
    now apply severity_eqb_eq.
Qed.

(** The comparison of the filter keeps exactly the severities that the
    order puts at or above the minimum. *)
Lemma severity_leb_at_or_above (min : Severity) (i : Issue) :
  severity_leb min (severity i) = severity_in (at_or_above min) i.
Proof.
  unfold severity_in. destruct min, (severity i); reflexivity.
Qed.

Lemma severity_filter_at_or_above (min : Severity) (l : list Issue) :
  severity_filter min l = filter (severity_in (at_or_above min)) l.
Proof.
  unfold severity_filter. induction l as [|i l IH]; simpl; [reflexivity|].
  now rewrite severity_leb_at_or_above, IH.
Qed.

Lemma at_or_above_leb (a b : Severity) :
  In b (at_or_above a) -> severity_leb a b = true.
Proof.
  destruct a, b; simpl; intros H;
    repeat (destruct H as [H|H]; [try discriminate H; reflexivity|]);
    destruct H.
Qed.

(** C3: severity filtering is monotonic.  For the same source text and a
    configuration that differs in the minimum severity only, the issues
    returned with minimum High are the issues returned with minimum Low
    whose severity is High or Critical, in the same order, so a
    subsequence of them; with minimum Low nothing is filtered out, so
    these are the unfiltered issues.  Whatever the minimum, the issues
    returned are exactly the unfiltered issues whose severity is the
    minimum or comes after it in Low < Medium < High < Critical; and
    raising the minimum never adds an issue. *)
Theorem severity_filtering_monotonic (catalog : list Rule)
    (file_path source_text : text) (c : EffectiveConfig) :
  let issues_at s :=
    issues (run catalog file_path source_text (with_min_severity c s)) in
  let unfiltered_set := unfiltered_issues catalog file_path source_text c in
  issues_at High = filter (severity_in [High; Critical]) (issues_at Low)
  /\ issues_at Critical = filter (severity_in [Critical]) (issues_at Low)
  /\ sublist (issues_at High) (issues_at Low)
  /\ issues_at Low = unfiltered_set
  /\ (forall s,
        issues_at s = filter (severity_in (at_or_above s)) unfiltered_set)
  /\ (forall s i,
        In i (issues_at s)
        <-> In i unfiltered_set /\ In (severity i) (at_or_above s))
  /\ issues (run catalog file_path source_text c)
     = filter (severity_in (at_or_above (min_severity c))) unfiltered_set
  /\ (forall a b,
        In b (at_or_above a) ->
        issues_at b = filter (severity_in (at_or_above b)) (issues_at a)
        /\ sublist (issues_at b) (issues_at a)).
Proof.
  intros issues_at unfiltered_set.
  assert (Hat : forall s,
            issues_at s = filter (severity_in (at_or_above s)) unfiltered_set).
  { intros s. unfold issues_at. rewrite run_issues.
    apply severity_filter_at_or_above. }
  assert (Hlow : issues_at Low = unfiltered_set).
  { unfold issues_at. rewrite run_issues. apply severity_filter_low. }
  assert (Hup : forall a b,
            In b (at_or_above a) ->
            issues_at b = filter (severity_in (at_or_above b)) (issues_at a)).
  { intros a b Hab. unfold issues_at. rewrite !run_issues.
    cbn [min_severity with_min_severity].
    rewrite <- severity_filter_at_or_above.
    symmetry. apply severity_filter_twice. now apply at_or_above_leb. }
  split; [exact (Hup Low High ltac:(simpl; auto))|].
  split; [exact (Hup Low Critical ltac:(simpl; auto))|].
  split; [rewrite (Hup Low High ltac:(simpl; auto)); apply filter_sublist|].
  split; [exact Hlow|].
  split; [exact Hat|].
  split.
  { intros s i. rewrite Hat, filter_In, severity_in_In. reflexivity. }
  split.
  { rewrite run_issues. apply severity_filter_at_or_above. }
  intros a b Hab. split; [now apply Hup|].
  rewrite (Hup a b Hab). apply filter_sublist.
Qed.

Lemma severity_filtering_monotonic_witness :
  In Critical (at_or_above Medium)
  /\ sublist
       (issues (run builtin_catalog (txt "test.py") severity_test_content
                  (with_min_severity builtin_defaults Critical)))
       (issues (run builtin_catalog (txt "test.py") severity_test_content
                  (with_min_severity builtin_defaults Medium))).
Proof.
  assert (H : In Critical (at_or_above Medium)) by (simpl; auto).
  split; [exact H|].
  pose proof (severity_filtering_monotonic builtin_catalog (txt "test.py")
                severity_test_content builtin_defaults) as Hthm.
  cbv zeta in Hthm.
  destruct Hthm as (_ & _ & _ & _ & _ & _ & _ & Hup).
  exact (proj2 (Hup Medium Critical H)).
Defined.

(** On the test file of [test_severity_filtering] the engine finds the
    hard-coded password, of severity High: it is returned with the minimum
    Low and with the minimum High, and filtered out with the minimum
    Critical. *)
Lemma severity_filtering_test_file :
  let issues_at s :=
    issues (run builtin_catalog (txt "test.py") severity_test_content
              (with_min_severity builtin_defaults s)) in
  map (fun i => (severity i, line i, rule i)) (issues_at Low)
  = [(High, 4, txt "hardcoded_credential")]
  /\ issues_at High = issues_at Low
  /\ issues_at Critical = [].
Proof. repeat apply conj; vm_compute; reflexivity. Qed.

(** ** Configuration resolution *)





(** ** The wrong member [os.path.exist] *)

(** C6: analyzing the Python call [os.path.exist("file.txt")] in Code
    context, alone or in its lines of test_hallucinated.py, yields exactly
    one Hallucinated-API Issue; its rule is the wrong-member rule
    [hallucinated_signature] and its suggestion contains [exists]. *)
Theorem os_path_exist_flagged :
  let found source_text :=
    run_analyzer builtin_catalog Python source_text
      (marks_of python_profile source_text) CodeAnalyzer in
  classify python_profile exist_call 0 = Some Code
  /\ length (found exist_call) = 1
  /\ map rule (found exist_call) = [txt "hallucinated_signature"]
  /\ forallb (suggests (txt "exists")) (found exist_call) = true
  /\ startswith exist_call (drop 26 exist_lines) = true
  /\ classify python_profile exist_lines 26 = Some Code
  /\ found exist_lines
     = [ {| severity := High;
            message := txt "hallucinated API: hallucinated_signature";
            line := 2; column := Some 4;
            rule := txt "hallucinated_signature";
            suggestion := Some (txt "exists") |} ]
  /\ forallb (suggests (txt "exists")) (found exist_lines) = true
  /\ issues (run builtin_catalog (txt "test_hallucinated.py") exist_lines
               builtin_defaults)
     = found exist_lines.
Proof.
  cbv zeta. repeat apply conj; vm_compute; reflexivity.
Qed.

(** ** Patterns outside Code *)

(** The tracker classifies every offset of the text, once. *)
Lemma scan_length (p : LanguageProfile) (s : text) :
  forall k : Scanner, length (scan p k s) = length s.
Proof.
  induction s as [|c s IH]; intros k; [reflexivity|].
  cbn [scan]. destruct (pending k).
  - destruct (step p (st k) (depths k) c (c :: s)) as [m k'].
    simpl. now rewrite IH.
  - simpl. now rewrite IH.
Qed.

Lemma classify_total (p : LanguageProfile) (source_text : text) (o : nat) :
  o < length source_text <-> exists c, classify p source_text o = Some c.
Proof.
  unfold classify, marks_of.
  rewrite <- (scan_length p source_text (go InCode [])).
  rewrite <- lookup_lt_is_Some.
  destruct (scan p (go InCode []) source_text !! o) as [m|]; simpl; split.
  - intros _. eauto.
  - intros _. eauto.
  - intros [x Hx]. discriminate.
  - intros [c Hc]. discriminate.
Qed.

Lemma outside_codeb_sound (p : LanguageProfile) (source_text : text)
    (pat : Pattern) :
  outside_codeb p source_text pat = true -> outside_code p source_text pat.
Proof.
  unfold outside_codeb, outside_code, classify. cbv zeta.
  rewrite forallb_forall.
  intros H o Ho Hocc.
  specialize (H o). rewrite Hocc in H. simpl in H.
  destruct (option_map ctx (marks_of p source_text !! o)) as [c|].
  - exists c. split; [reflexivity|].
    destruct c; simpl; auto 6.
    assert (false = true) by (apply H, in_seq; lia). discriminate.
  - assert (false = true) by (apply H, in_seq; lia). discriminate.
Qed.

Lemma match_rule_outside_code (r : Rule) :
  forall (rest : text) (marks : list Mark) (ln col : nat),
    (forall o m, marks !! o = Some m -> o < length rest ->
                 is_code (ctx m) = true ->
                 occurs_at (pattern r) (drop o rest) = false) ->
    match_rule r rest marks ln col = [].
Proof.
  induction rest as [|c rest IH]; intros marks ln col H; [reflexivity|].
  destruct marks as [|m marks]; [reflexivity|].
  cbn [match_rule].
  rewrite IH.
  - destruct (is_code (ctx m)) eqn:Hc; [|reflexivity].
    assert (E : occurs_at (pattern r) (c :: rest) = false).
    { apply (H 0 m); simpl; auto. lia. }
    now rewrite E.
  - intros o m' Hm Ho Hcode. apply (H (S o) m'); simpl; auto. lia.
Qed.

Lemma outside_code_no_issue (p : LanguageProfile) (source_text : text)
    (r : Rule) :
  outside_code p source_text (pattern r) ->
  match_rule r source_text (marks_of p source_text) 1 1 = [].
Proof.
  intros H. apply match_rule_outside_code.
  intros o m Hm Ho Hcode.
  destruct (occurs_at (pattern r) (drop o source_text)) eqn:E; [|reflexivity].
  destruct (H o Ho E) as (c & Hc & Hin).
  unfold classify in Hc. rewrite Hm in Hc. simpl in Hc.
  injection Hc as <-.
  destruct (ctx m); simpl in *; try discriminate.
  intuition discriminate.
Qed.

(** C1: for every source text and language profile, a rule whose pattern
    occurs only inside comments, string literals and template literals
    produces no Issue, and an analyzer all of whose rules are such
    produces none at all, be it the Hallucinated-API or the Security
    analyzer.  In particular the JavaScript text of debug_test.py,
    which mentions [arr.flatmap()], [arr.append()], [arr.push()] and
    [arr.contains()] in comments, a string literal and a template literal
    only, yields no Issue: none with rule [hallucinated_signature] or
    [nonexistent_method], and no Security Issue. *)
Theorem comments_and_strings_not_flagged :
  (forall (p : LanguageProfile) (source_text : text) (r : Rule),
     outside_code p source_text (pattern r) ->
     match_rule r source_text (marks_of p source_text) 1 1 = [])
  /\ (forall (catalog : list Rule) (l : Language) (p : LanguageProfile)
             (source_text : text) (a : Analyzer),
        a <> TextAnalyzer ->
        (forall r, In r (rules_for catalog l (analyzer_category a)) ->
                   outside_code p source_text (pattern r)) ->
        run_analyzer catalog l source_text (marks_of p source_text) a = [])
  /\ (contains (txt "arr.flatmap()") debug_content = true
      /\ contains (txt "arr.append()") debug_content = true
      /\ contains (txt "arr.push()") debug_content = true
      /\ contains (txt "arr.contains()") debug_content = true)
  /\ Forall (fun r => outside_code javascript_profile debug_content (pattern r))
       (rules_for builtin_catalog JavaScript HallucinatedAPI
        ++ rules_for builtin_catalog JavaScript Security)
  /\ run_analyzer builtin_catalog JavaScript debug_content
       (marks_of javascript_profile debug_content) CodeAnalyzer = []
  /\ run_analyzer builtin_catalog JavaScript debug_content
       (marks_of javascript_profile debug_content) SecurityAnalyzer = []
  /\ issues (run builtin_catalog (txt "test.js") debug_content
               builtin_defaults) = [].
Proof.
  split; [intros p s r; apply outside_code_no_issue|].
  split.
  { intros catalog l p s a Ha H.
    assert (E : run_analyzer catalog l s (marks_of p s) a
                = analyze s (marks_of p s)
                    (rules_for catalog l (analyzer_category a))).
    { destruct a; [reflexivity|congruence|reflexivity]. }
    rewrite E. clear E. unfold analyze.
    induction (rules_for catalog l (analyzer_category a)) as [|r rs IH];
      [reflexivity|].
    simpl. rewrite (outside_code_no_issue p).
    - apply IH. intros r' Hr'. apply H. now right.
    - apply H. now left. }
  split; [repeat apply conj; vm_compute; reflexivity|].
  split.
  { apply Forall_forall. intros r Hr. apply outside_codeb_sound.
    revert r Hr. apply forallb_forall. vm_compute. reflexivity. }
  repeat apply conj; vm_compute; reflexivity.
Qed.

Lemma comments_and_strings_not_flagged_witness :
  match_rule (no_method [JavaScript; TypeScript] "append" "push")
    debug_content (marks_of javascript_profile debug_content) 1 1 = []
  /\ run_analyzer builtin_catalog JavaScript debug_content
       (marks_of javascript_profile debug_content) SecurityAnalyzer = [].
Proof.
  split.
  - apply (proj1 comments_and_strings_not_flagged javascript_profile).
    apply outside_codeb_sound. vm_compute. reflexivity.
  - apply (proj1 (proj2 comments_and_strings_not_flagged)
             builtin_catalog JavaScript javascript_profile); [discriminate|].
    intros r Hr. apply outside_codeb_sound.
    revert r Hr. apply forallb_forall. vm_compute. reflexivity.
Defined.

(** ** Where issues come from *)

Lemma newlines_snoc (pre : text) (c : N) :
  S (newlines (pre ++ [c])) = advance_line c (S (newlines pre)).
Proof.
  unfold newlines, advance_line. rewrite filter_app, length_app.
  change (filter (N.eqb NL) [c]) with (if N.eqb NL c then [c] else []).
  rewrite (N.eqb_sym NL c). destruct (N.eqb c NL); simpl; lia.
Qed.

Lemma line_of_prefix (pre rest : text) :
  line_of (pre ++ rest) (length pre) = S (newlines pre).
Proof. unfold line_of, newlines. now rewrite take_app_length. Qed.

Section Origins.

Variable source_text : text.
Variable all_marks : list Mark.

(** The Issue of a rule is built at an offset of the text at which the
    pattern of the rule occurs and which is marked as code, with the line
    of this offset. *)
Lemma match_rule_raised (r : Rule) :
  forall (rest : text) (marks : list Mark) (ln col : nat)
         (pre : text) (mpre : list Mark) (i : Issue),
    source_text = pre ++ rest -> all_marks = mpre ++ marks ->
    length pre = length mpre -> ln = S (newlines pre) ->
    In i (match_rule r rest marks ln col) ->
    exists o m col',
      all_marks !! o = Some m /\ is_code (ctx m) = true
      /\ o < length source_text
      /\ occurs_at (pattern r) (drop o source_text) = true
      /\ i = make_issue r (line_of source_text o) col'.
Proof.
  induction rest as [|c rest IH];
    intros marks ln col pre mpre i Hs Hm Hlen Hln Hin; [destruct Hin|].
  destruct marks as [|m marks]; [destruct Hin|].
  cbn [match_rule] in Hin. apply in_app_or in Hin as [Hin|Hin].
  - destruct (is_code (ctx m) && occurs_at (pattern r) (c :: rest)) eqn:E;
      [|destruct Hin].
    destruct Hin as [<-|[]].
    apply andb_true_iff in E as [Hc Ho].
    exists (length pre), m, col.
    split; [rewrite Hm, Hlen; now apply list_lookup_middle|].
    split; [exact Hc|].
    split; [rewrite Hs, length_app; simpl; lia|].
    split; [rewrite Hs, drop_app_length; exact Ho|].
    rewrite Hs, line_of_prefix, Hln. reflexivity.
  - apply (IH marks (advance_line c ln) (advance_col c col)
             (pre ++ [c]) (mpre ++ [m]) i).
    + now rewrite <- app_assoc.
    + now rewrite <- app_assoc.
    + rewrite !length_app. simpl. lia.
    + subst ln. symmetry. apply newlines_snoc.
    + exact Hin.
Qed.

(** A block handed to the AI-Text analyzer is a stretch of the text all of
    whose offsets are marked as comment or documentation text, and its
    line is the line of the first of them. *)
Lemma prose_blocks_span :
  forall (rest : text) (marks : list Mark) (ln : nat) (cur : option Block)
         (pre : text) (mpre : list Mark),
    source_text = pre ++ rest -> all_marks = mpre ++ marks ->
    length pre = length mpre -> ln = S (newlines pre) ->
    (forall start t, cur = Some (start, t) ->
       exists pre0 mpre0 mt,
         pre = pre0 ++ t /\ mpre = mpre0 ++ mt
         /\ length pre0 = length mpre0 /\ length t = length mt
         /\ t <> [] /\ forallb is_prose mt = true
         /\ start = S (newlines pre0)) ->
    forall b, In b (prose_blocks rest marks ln cur) ->
      exists pre0 post mpre0 mt mpost,
        source_text = pre0 ++ snd b ++ post
        /\ all_marks = mpre0 ++ mt ++ mpost
        /\ length pre0 = length mpre0 /\ length (snd b) = length mt
        /\ snd b <> [] /\ forallb is_prose mt = true
        /\ fst b = S (newlines pre0).
Proof.
  assert (Hflush : forall (cur : option Block) (pre rest : text)
                          (mpre marks : list Mark),
            source_text = pre ++ rest -> all_marks = mpre ++ marks ->
            (forall start t, cur = Some (start, t) ->
               exists pre0 mpre0 mt,
                 pre = pre0 ++ t /\ mpre = mpre0 ++ mt
                 /\ length pre0 = length mpre0 /\ length t = length mt
                 /\ t <> [] /\ forallb is_prose mt = true
                 /\ start = S (newlines pre0)) ->
            forall b, In b (flush cur) ->
              exists pre0 post mpre0 mt mpost,
                source_text = pre0 ++ snd b ++ post
                /\ all_marks = mpre0 ++ mt ++ mpost
                /\ length pre0 = length mpre0 /\ length (snd b) = length mt
                /\ snd b <> [] /\ forallb is_prose mt = true
                /\ fst b = S (newlines pre0)).
  { intros [[start t]|] pre rest mpre marks Hs Hm H b Hin; simpl in Hin;
      [|destruct Hin].
    destruct Hin as [<-|[]].
    destruct (H start t eq_refl)
      as (pre0 & mpre0 & mt & Hp & Hmp & Hl0 & Hlt & Hne & Hall & Hst).
    exists pre0, rest, mpre0, mt, marks. simpl.
    rewrite Hs, Hm, Hp, Hmp, <- !app_assoc. auto 10. }
  induction rest as [|c rest IH];
    intros marks ln cur pre mpre Hs Hm Hlen Hln Hcur b Hin.
  { assert (Hin' : In b (flush cur)) by (destruct marks; exact Hin).
    exact (Hflush cur pre [] mpre marks Hs Hm Hcur b Hin'). }
  destruct marks as [|m marks];
    [exact (Hflush cur pre (c :: rest) mpre [] Hs Hm Hcur b Hin)|].
  cbn [prose_blocks] in Hin.
  assert (Hs' : source_text = (pre ++ [c]) ++ rest)
    by now rewrite <- app_assoc.
  assert (Hm' : all_marks = (mpre ++ [m]) ++ marks)
    by now rewrite <- app_assoc.
  assert (Hlen' : length (pre ++ [c]) = length (mpre ++ [m]))
    by (rewrite !length_app; simpl; lia).
  assert (Hln' : advance_line c ln = S (newlines (pre ++ [c])))
    by (subst ln; symmetry; apply newlines_snoc).
  destruct (is_prose m) eqn:Hp.
  - apply (IH _ _ _ _ _ Hs' Hm' Hlen' Hln') in Hin; [exact Hin|].
    intros start t Hb'. destruct cur as [[start0 t0]|].
    + injection Hb' as <- <-.
      destruct (Hcur start0 t0 eq_refl)
        as (pre0 & mpre0 & mt & Hpre & Hmpre & Hl0 & Hlt & Hne & Hall & Hst).
      exists pre0, mpre0, (mt ++ [m]).
      rewrite Hpre, Hmpre, <- !app_assoc, !length_app, forallb_app, Hall.
      simpl. rewrite Hp. repeat split; auto; try lia.
      intros E. apply app_eq_nil in E as [_ E]. discriminate.
    + injection Hb' as <- <-.
      exists pre, mpre, [m]. simpl. rewrite Hp.
      repeat split; auto; discriminate.
  - apply in_app_or in Hin as [Hin|Hin];
      [exact (Hflush cur pre (c :: rest) mpre (m :: marks) Hs Hm Hcur b Hin)|].
    apply (IH _ _ _ _ _ Hs' Hm' Hlen' Hln') in Hin; [exact Hin|].
    discriminate.
Qed.

End Origins.

Lemma text_eqb_eq (a b : text) : text_eqb a b = true <-> a = b.
Proof.
  unfold text_eqb, text_neb. destruct (decide (a = b)); simpl;
    split; congruence.
Qed.

Lemma text_eqb_refl (a : text) : text_eqb a a = true.
Proof. now apply text_eqb_eq. Qed.

Lemma category_eqb_eq (a b : Category) : category_eqb a b = true <-> a = b.
Proof. destruct a, b; simpl; split; congruence. Qed.

Lemma rules_for_in (catalog : list Rule) (l : Language) (c : Category)
    (r : Rule) :
  In r (rules_for catalog l c) -> In r catalog /\ category r = c.
Proof.
  unfold rules_for. rewrite filter_In. intros [Hin H].
  apply andb_true_iff in H as [H _]. split; [exact Hin|].
  now apply category_eqb_eq.
Qed.

Lemma catalog_ok_rule (catalog : list Rule) (r : Rule) :
  catalog_ok catalog = true -> In r catalog ->
  rule_id r <> []
  /\ (forall r', In r' catalog -> rule_id r = rule_id r' ->
                 category r = category r')
  /\ (rule_id r = ai_text_rule -> category r = AIText).
Proof.
  unfold catalog_ok. rewrite forallb_forall. intros H Hin.
  specialize (H r Hin).
  apply andb_true_iff in H as [H Hai].
  apply andb_true_iff in H as [Hid Hcat].
  split; [|split].
  - intros E. rewrite E in Hid. discriminate.
  - intros r' Hr' E. rewrite forallb_forall in Hcat.
    specialize (Hcat r' Hr'). rewrite E, text_eqb_refl in Hcat.
    now apply category_eqb_eq.
  - intros E. rewrite E, text_eqb_refl in Hai. now apply category_eqb_eq.
Qed.

Lemma insert_issue_perm (x : Issue) (l : list Issue) :
  Permutation (insert_issue x l) (x :: l).
Proof.
  induction l as [|y l IH]; simpl; [reflexivity|].
  destruct (issue_leb x y); [reflexivity|].
  rewrite IH. apply perm_swap.
Qed.



Lemma is_prose_ctx (m : Mark) :
  is_prose m = true -> In (ctx m) [LineComment; BlockComment; StringLiteral].
Proof.
  unfold is_prose. destruct (ctx m); simpl; auto; discriminate.
Qed.

(** An Issue of the Hallucinated-API or the Security analyzer: the rule
    and the offset it was raised at. *)
Lemma analyze_raised (catalog : list Rule) (l : Language)
    (source_text : text) (c : Category) (i : Issue) :
  In i (analyze source_text (marks_of (profile_of l) source_text)
          (rules_for catalog l c)) ->
  exists r o col,
    In r catalog /\ category r = c
    /\ o < length source_text
    /\ occurs_at (pattern r) (drop o source_text) = true
    /\ classify (profile_of l) source_text o = Some Code
    /\ i = make_issue r (line_of source_text o) col.
Proof.
  unfold analyze. intros Hin. apply in_flat_map in Hin as (r & Hr & Hi).
  apply rules_for_in in Hr as [Hr Hcat].
  destruct (match_rule_raised source_text
              (marks_of (profile_of l) source_text) r source_text
              (marks_of (profile_of l) source_text) 1 1 [] [] i
              eq_refl eq_refl eq_refl eq_refl Hi)
    as (o & m & col & Hm & Hc & Ho & Hocc & Hi').
  exists r, o, col. repeat split; auto.
  unfold classify. rewrite Hm. simpl.
  destruct (ctx m); try discriminate. reflexivity.
Qed.

(** An Issue of the AI-Text analyzer: the comment or documentation span it
    was raised for. *)
Lemma analyze_text_raised (catalog : list Rule) (l : Language)
    (source_text : text) (i : Issue) :
  In i (analyze_text source_text (marks_of (profile_of l) source_text)
          (rules_for catalog l AIText)) ->
  exists o n,
    0 < n /\ o + n <= length source_text
    /\ (forall k, o <= k < o + n ->
          exists c, classify (profile_of l) source_text k = Some c
                    /\ In c [LineComment; BlockComment; StringLiteral])
    /\ phrase_threshold
       <= length (phrases_in (rules_for catalog l AIText)
                    (take n (drop o source_text)))
    /\ i = {| severity :=
                highest (phrases_in (rules_for catalog l AIText)
                           (take n (drop o source_text)));
              message := category_label AIText ++ ai_text_rule;
              line := line_of source_text o;
              column := None;
              rule := ai_text_rule;
              suggestion := None |}.
Proof.
  unfold analyze_text. intros Hin. apply in_flat_map in Hin as (b & Hb & Hi).
  destruct (prose_blocks_span source_text
              (marks_of (profile_of l) source_text) source_text
              (marks_of (profile_of l) source_text) 1 None [] []
              eq_refl eq_refl eq_refl eq_refl ltac:(discriminate) b Hb)
    as (pre0 & post & mpre0 & mt & mpost & Hs & Hm & Hl0 & Hlt & Hne & Hall
        & Hst).
  assert (Hblock : take (length (snd b)) (drop (length pre0) source_text)
                   = snd b).
  { rewrite Hs, drop_app_length. apply take_app_length. }
  destruct (phrase_threshold
            <=? length (phrases_in (rules_for catalog l AIText) (snd b)))
    eqn:Eth; [|destruct Hi].
  destruct Hi as [<-|[]].
  exists (length pre0), (length (snd b)). rewrite Hblock.
  split; [destruct (snd b); [congruence|simpl; lia]|].
  split; [rewrite Hs, !length_app; lia|].
  split.
  { intros k Hk. unfold classify. rewrite Hm.
    rewrite lookup_app_r by lia. rewrite lookup_app_l by lia.
    destruct (mt !! (k - length mpre0)) as [m|] eqn:Em.
    - exists (ctx m). split; [reflexivity|]. apply is_prose_ctx.
      rewrite forallb_forall in Hall. apply Hall.
      apply list_elem_of_In. eapply list_elem_of_lookup_2. exact Em.
    - apply lookup_ge_None in Em. lia. }
  split; [now apply Nat.leb_le|].
  f_equal. rewrite Hs, line_of_prefix. exact Hst.
Qed.

(** The rule an analyzer's Issue comes from. *)
Lemma run_analyzer_issue (catalog : list Rule) (l : Language)
    (source_text : text) (a : Analyzer) (i : Issue) :
  In i (run_analyzer catalog l source_text
          (marks_of (profile_of l) source_text) a) ->
  (a <> TextAnalyzer
   /\ exists r, In r catalog /\ category r = analyzer_category a
                /\ rule i = rule_id r)
  \/ (a = TextAnalyzer /\ rule i = ai_text_rule).
Proof.
  intros Hin. destruct a; simpl in Hin.
  - left. split; [discriminate|].
    destruct (analyze_raised _ _ _ _ _ Hin)
      as (r & o & col & Hr & Hcat & _ & _ & _ & ->).
    exists r. auto.
  - right. split; [reflexivity|].
    destruct (analyze_text_raised _ _ _ _ Hin) as (o & n & _ & _ & _ & _ & ->).
    reflexivity.
  - left. split; [discriminate|].
    destruct (analyze_raised _ _ _ _ _ Hin)
      as (r & o & col & Hr & Hcat & _ & _ & _ & ->).
    exists r. auto.
Qed.




(** ** The order of the issues *)

Lemma text_leb_refl (a : text) : text_leb a a = true.
Proof.
  induction a as [|x a IH]; simpl; [reflexivity|].
  now rewrite N.ltb_irrefl, N.eqb_refl.
Qed.

Lemma text_leb_antisym (a b : text) :
  text_leb a b = true -> text_leb b a = true -> a = b.
Proof.
  revert b; induction a as [|x a IH]; intros [|y b]; simpl;
    try congruence.
  destruct (N.ltb_spec x y), (N.ltb_spec y x); try lia;
    destruct (N.eqb_spec x y), (N.eqb_spec y x); try lia; try congruence.
  intros H1 H2. subst. f_equal. auto.
Qed.

Lemma text_leb_total (a b : text) :
  text_leb a b = false -> text_leb b a = true.
Proof.
  revert b; induction a as [|x a IH]; intros [|y b]; simpl;
    try congruence.
  destruct (N.ltb_spec x y), (N.ltb_spec y x); try lia;
    destruct (N.eqb_spec x y), (N.eqb_spec y x); try lia; try congruence.
  apply IH.
Qed.

Lemma text_leb_trans (a b c : text) :
  text_leb a b = true -> text_leb b c = true -> text_leb a c = true.
Proof.
  revert b c; induction a as [|x a IH]; intros [|y b] [|z c]; simpl;
    try congruence.
  destruct (N.ltb_spec x y), (N.ltb_spec y z), (N.ltb_spec x z); try lia;
    destruct (N.eqb_spec x y), (N.eqb_spec y z), (N.eqb_spec x z);
    try lia; try congruence.
  apply IH.
Qed.

Lemma same_key_eq (i j : Issue) :
  same_key i j = true <-> line i = line j /\ rule i = rule j.
Proof.
  unfold same_key. rewrite andb_true_iff, Nat.eqb_eq, text_eqb_eq.
  reflexivity.
Qed.

Lemma same_key_refl (i : Issue) : same_key i i = true.
Proof. now apply same_key_eq. Qed.

Lemma same_key_leb (i j : Issue) :
  same_key i j = true -> issue_leb i j = true.
Proof.
  intros H. apply same_key_eq in H as [Hl Hr]. unfold issue_leb.
  rewrite Hl, Hr, Nat.ltb_irrefl, Nat.eqb_refl. apply text_leb_refl.
Qed.

Lemma issue_leb_total (i j : Issue) :
  issue_leb i j = false -> issue_leb j i = true.
Proof.
  unfold issue_leb.
  destruct (Nat.ltb_spec (line i) (line j)), (Nat.ltb_spec (line j) (line i));
    try lia; try congruence;
    destruct (Nat.eqb_spec (line i) (line j)),
             (Nat.eqb_spec (line j) (line i)); try lia; try congruence.
  apply text_leb_total.
Qed.

Lemma issue_leb_trans (i j k : Issue) :
  issue_leb i j = true -> issue_leb j k = true -> issue_leb i k = true.
Proof.
  unfold issue_leb.
  destruct (Nat.ltb_spec (line i) (line j)), (Nat.ltb_spec (line j) (line k)),
           (Nat.ltb_spec (line i) (line k)); try lia; try congruence;
    destruct (Nat.eqb_spec (line i) (line j)),
             (Nat.eqb_spec (line j) (line k)),
             (Nat.eqb_spec (line i) (line k)); try lia; try congruence.
  apply text_leb_trans.
Qed.

Lemma issue_leb_antisym (i j : Issue) :
  issue_leb i j = true -> issue_leb j i = true -> same_key i j = true.
Proof.
  unfold issue_leb. intros H1 H2. apply same_key_eq.
  destruct (Nat.ltb_spec (line i) (line j)), (Nat.ltb_spec (line j) (line i));
    try lia;
    destruct (Nat.eqb_spec (line i) (line j)),
             (Nat.eqb_spec (line j) (line i)); try lia; try congruence.
  split; [assumption|]. now apply text_leb_antisym.
Qed.

Lemma insert_issue_sorted (x : Issue) (l : list Issue) :
  StronglySorted issue_le l -> StronglySorted issue_le (insert_issue x l).
Proof.
  induction 1 as [|y l Hs IH Hy]; simpl.
  - repeat constructor.
  - destruct (issue_leb x y) eqn:E.
    + constructor; [now constructor|].
      constructor; [exact E|].
      eapply Forall_impl; [|exact Hy].
      intros z Hz. exact (issue_leb_trans _ _ _ E Hz).
    + constructor; [exact IH|].
      apply (Permutation_Forall (Permutation_sym (insert_issue_perm x l))).
      constructor; [now apply issue_leb_total|exact Hy].
Qed.

Lemma sort_issues_sorted (l : list Issue) :
  StronglySorted issue_le (sort_issues l).
Proof.
  induction l as [|x l IH]; simpl; [constructor|].
  now apply insert_issue_sorted.
Qed.

Lemma filter_sorted (f : Issue -> bool) (l : list Issue) :
  StronglySorted issue_le l -> StronglySorted issue_le (filter f l).
Proof.
  induction 1 as [|y l Hs IH Hy]; simpl; [constructor|].
  destruct (f y); [|exact IH].
  constructor; [exact IH|].
  apply Forall_forall. intros z Hz. apply filter_In in Hz as [Hz _].
  rewrite Forall_forall in Hy. now apply Hy.
Qed.

(** The sort is stable: among the issues of one key it keeps the order. *)
Lemma insert_issue_keyed (k x : Issue) (l : list Issue) :
  filter (same_key k) (insert_issue x l) = filter (same_key k) (x :: l).
Proof.
  induction l as [|y l IH]; [reflexivity|].
  cbn [insert_issue]. destruct (issue_leb x y) eqn:E; [reflexivity|].
  cbn [filter] in *. rewrite IH.
  destruct (same_key k y) eqn:Ey, (same_key k x) eqn:Ex; try reflexivity.
  apply same_key_eq in Ey as [Hy1 Hy2]. apply same_key_eq in Ex as [Hx1 Hx2].
  assert (Hxy : same_key x y = true) by (apply same_key_eq; split; congruence).
  apply same_key_leb in Hxy. congruence.
Qed.

Lemma sort_issues_keyed (k : Issue) (l : list Issue) :
  filter (same_key k) (sort_issues l) = filter (same_key k) l.
Proof.
  induction l as [|x l IH]; [reflexivity|].
  cbn [sort_issues fold_right]. fold (sort_issues l).
  rewrite insert_issue_keyed. cbn [filter]. now rewrite IH.
Qed.

(** Two sorted sequences with the same issues under every key, in the
    same order, are equal. *)
Lemma sorted_keyed_unique (s1 s2 : list Issue) :
  StronglySorted issue_le s1 -> StronglySorted issue_le s2 ->
  (forall k, filter (same_key k) s1 = filter (same_key k) s2) ->
  s1 = s2.
Proof.
  intros H1. revert s2. induction H1 as [|a s1 Hs1 IH Ha]; intros s2 H2 Hk.
  - destruct s2 as [|b s2]; [reflexivity|].
    specialize (Hk b). simpl in Hk. rewrite same_key_refl in Hk. discriminate.
  - destruct s2 as [|b s2].
    { specialize (Hk a). simpl in Hk. rewrite same_key_refl in Hk.
      discriminate. }
    inversion H2 as [|? ? Hs2 Hb]; subst.
    assert (Hab : same_key a b = true).
    { apply issue_leb_antisym.
      - pose proof (Hk b) as E. simpl in E. rewrite same_key_refl in E.
        assert (Hin : In b (a :: s1)).
        { apply (proj1 (filter_In (same_key b) b (a :: s1))).
          simpl. rewrite E. now left. }
        destruct Hin as [->|Hin]; [now apply same_key_leb, same_key_refl|].
        rewrite Forall_forall in Ha. now apply Ha.
      - pose proof (Hk a) as E. simpl in E. rewrite same_key_refl in E.
        assert (Hin : In a (b :: s2)).
        { apply (proj1 (filter_In (same_key a) a (b :: s2))).
          simpl. rewrite <- E. now left. }
        destruct Hin as [->|Hin]; [now apply same_key_leb, same_key_refl|].
        rewrite Forall_forall in Hb. now apply Hb. }
    assert (Heq : a = b).
    { pose proof (Hk a) as E. simpl in E.
      rewrite same_key_refl, Hab in E. congruence. }
    subst b. f_equal. apply IH; [exact Hs2|].
    intros k. specialize (Hk k). simpl in Hk.
    destruct (same_key k a); congruence.
Qed.

Lemma analyzer_eq_dec (a b : Analyzer) : {a = b} + {a <> b}.
Proof. decide equality. Qed.

Lemma keyed_flat_map_perm (f : Analyzer -> list Issue) (k : Issue)
    (l1 l2 : list Analyzer) :
  (forall a b, a <> b ->
     filter (same_key k) (f a) = [] \/ filter (same_key k) (f b) = []) ->
  Permutation l1 l2 ->
  filter (same_key k) (flat_map f l1) = filter (same_key k) (flat_map f l2).
Proof.
  intros Hd. induction 1 as [|x l1 l2 Hp IH|x y l|l1 l2 l3 H12 IH12 H23 IH23].
  - reflexivity.
  - simpl. now rewrite !filter_app, IH.
  - simpl. rewrite !filter_app.
    destruct (analyzer_eq_dec x y) as [->|Hne]; [reflexivity|].
    destruct (Hd x y Hne) as [E|E]; rewrite E; simpl;
      now rewrite ?app_nil_r.
  - congruence.
Qed.

(** Two different analyzers never produce issues of the same rule. *)
Lemma analyzers_disjoint_keys (catalog : list Rule) (l : Language)
    (source_text : text) (k : Issue) (a b : Analyzer) :
  catalog_ok catalog = true -> a <> b ->
  filter (same_key k)
    (run_analyzer catalog l source_text
       (marks_of (profile_of l) source_text) a) = []
  \/ filter (same_key k)
       (run_analyzer catalog l source_text
          (marks_of (profile_of l) source_text) b) = [].
Proof.
  intros Hok Hne.
  destruct (filter (same_key k) (run_analyzer catalog l source_text _ a))
    as [|i fa] eqn:Ea; [now left|].
  destruct (filter (same_key k) (run_analyzer catalog l source_text _ b))
    as [|j fb] eqn:Eb; [now right|].
  exfalso.
  assert (Hi : In i (filter (same_key k)
                       (run_analyzer catalog l source_text
                          (marks_of (profile_of l) source_text) a)))
    by (rewrite Ea; now left).
  assert (Hj : In j (filter (same_key k)
                       (run_analyzer catalog l source_text
                          (marks_of (profile_of l) source_text) b)))
    by (rewrite Eb; now left).
  apply filter_In in Hi as [Hi Hki]. apply filter_In in Hj as [Hj Hkj].
  apply same_key_eq in Hki as [_ Hri]. apply same_key_eq in Hkj as [_ Hrj].
  assert (Hij : rule i = rule j) by congruence.
  destruct (run_analyzer_issue _ _ _ _ _ Hi)
    as [(Ha & r & Hr & Hcat & Hrule)|(Ha & Hrule)];
  destruct (run_analyzer_issue _ _ _ _ _ Hj)
    as [(Hb & r' & Hr' & Hcat' & Hrule')|(Hb & Hrule')].
  - destruct (catalog_ok_rule _ _ Hok Hr) as (_ & Hsame & _).
    assert (E : category r = category r') by (apply Hsame; congruence).
    rewrite Hcat, Hcat' in E. destruct a, b; simpl in E; congruence.
  - destruct (catalog_ok_rule _ _ Hok Hr) as (_ & _ & Hai).
    assert (E : category r = AIText) by (apply Hai; congruence).
    rewrite Hcat in E. destruct a; simpl in E; congruence.
  - destruct (catalog_ok_rule _ _ Hok Hr') as (_ & _ & Hai).
    assert (E : category r' = AIText) by (apply Hai; congruence).
    rewrite Hcat' in E. destruct b; simpl in E; congruence.
  - congruence.
Qed.

Lemma unfiltered_perm (catalog : list Rule) (l : Language)
    (source_text : text) (l1 l2 : list Analyzer) :
  catalog_ok catalog = true -> Permutation l1 l2 ->
  unfiltered catalog l source_text l1 = unfiltered catalog l source_text l2.
Proof.
  intros Hok Hp. unfold unfiltered.
  apply sorted_keyed_unique; try apply sort_issues_sorted.
  intros k. rewrite !sort_issues_keyed.
  apply keyed_flat_map_perm; [|exact Hp].
  intros a b Hne. now apply analyzers_disjoint_keys.
Qed.

(** *** Runs that take the analyzers in different orders *)

(** What a run has collected is what the analyzers that have run
    produced, and the analyzers are those enabled, in some order. *)
Lemma run_steps_collected (catalog : list Rule) (l : Language)
    (source_text : text) (s1 s2 : RunState) :
  run_steps catalog l source_text s1 s2 ->
  shared_marks s2 = shared_marks s1
  /\ exists ran,
       Permutation (to_run s1) (ran ++ to_run s2)
       /\ collected s2
          = collected s1
            ++ flat_map (run_analyzer catalog l source_text (shared_marks s1))
                 ran.
Proof.
  induction 1 as [s|s1 s2 s3 Hstep _ IH].
  - split; [reflexivity|]. exists []. simpl.
    split; [reflexivity|now rewrite app_nil_r].
  - destruct IH as (Hm & ran & Hp & Hc).
    destruct Hstep as [marks before after a got]. simpl in *.
    split; [exact Hm|]. exists (a :: ran). split.
    + rewrite <- Permutation_middle. simpl. now constructor.
    + rewrite Hc. simpl. now rewrite <- app_assoc.
Qed.

(** Every enabled analyzer can be run, in the listed order. *)
Lemma run_steps_in_order (catalog : list Rule) (l : Language)
    (source_text : text) (marks : list Mark) :
  forall (todo : list Analyzer) (got : list Issue),
    run_steps catalog l source_text
      {| shared_marks := marks; to_run := todo; collected := got |}
      {| shared_marks := marks; to_run := [];
         collected := got ++ flat_map (run_analyzer catalog l source_text marks)
                               todo |}.
Proof.
  induction todo as [|a todo IH]; intros got.
  - simpl. rewrite app_nil_r. constructor.
  - eapply run_steps_next.
    + exact (run_next catalog l source_text marks [] todo a got).
    + simpl. rewrite app_assoc. apply IH.
Qed.

Lemma runs_run (catalog : list Rule) (file_path source_text : text)
    (c : EffectiveConfig) :
  Runs catalog file_path source_text c (run catalog file_path source_text c).
Proof.
  unfold run. destruct (language_of file_path) as [l|] eqn:El.
  - pose proof (run_steps_in_order catalog l source_text
                  (marks_of (profile_of l) source_text)
                  (enabled_analyzers c) []) as Hsteps.
    exact (runs_finished catalog file_path source_text c l _ El Hsteps
             eq_refl).
  - now constructor.
Qed.

(** Whatever order a run takes, and whatever the order in which the set
    of enabled analyzers is written, it returns what [run] returns. *)
Lemma runs_unique (catalog : list Rule) (file_path source_text : text)
    (c1 c2 : EffectiveConfig) (r : AnalysisResult) :
  catalog_ok catalog = true ->
  Permutation (enabled_analyzers c1) (enabled_analyzers c2) ->
  min_severity c1 = min_severity c2 ->
  Runs catalog file_path source_text c1 r ->
  r = run catalog file_path source_text c2.
Proof.
  intros Hok Hp Hmin Hr. unfold run.
  destruct Hr as [El|l s El Hsteps Hdone]; rewrite El; [reflexivity|].
  destruct (run_steps_collected _ _ _ _ _ Hsteps) as (_ & ran & Hperm & Hc).
  rewrite Hdone, app_nil_r in Hperm. simpl in Hperm, Hc.
  unfold finish_run. rewrite Hc, Hmin. f_equal. f_equal.
  change (unfiltered catalog l source_text ran
          = unfiltered catalog l source_text (enabled_analyzers c2)).
  apply unfiltered_perm; [exact Hok|].
  now rewrite <- Hperm.
Qed.

(** C5: two runs of the Orchestrator on the same source text and the same
    effective configuration return the same result, issue for issue and in
    the same order, whichever of the enabled analyzers each run takes
    first; so do two runs whose configurations name the same set of
    analyzers in different orders.  The rule identifiers of the catalog,
    one category each, are what the tie-break of the sort relies on; the
    built-in catalog has them so.  A run always ends, [run] is one, and
    what it returns is sorted by line and then rule identifier. *)
Theorem analysis_deterministic (file_path source_text : text) :
  (forall (c : EffectiveConfig) (r1 r2 : AnalysisResult),
     Runs builtin_catalog file_path source_text c r1 ->
     Runs builtin_catalog file_path source_text c r2 ->
     r1 = r2 /\ issues r1 = issues r2)
  /\ (forall (catalog : list Rule) (c1 c2 : EffectiveConfig)
             (r1 r2 : AnalysisResult),
        catalog_ok catalog = true ->
        Permutation (enabled_analyzers c1) (enabled_analyzers c2) ->
        min_severity c1 = min_severity c2 ->
        Runs catalog file_path source_text c1 r1 ->
        Runs catalog file_path source_text c2 r2 ->
        r1 = r2)
  /\ (forall (catalog : list Rule) (c : EffectiveConfig),
        Runs catalog file_path source_text c
          (run catalog file_path source_text c))
  /\ (forall (catalog : list Rule) (c : EffectiveConfig) (r : AnalysisResult),
        Runs catalog file_path source_text c r ->
        StronglySorted issue_le (issues r)).
Proof.
  assert (Hgen : forall (catalog : list Rule) (c1 c2 : EffectiveConfig)
                        (r1 r2 : AnalysisResult),
            catalog_ok catalog = true ->
            Permutation (enabled_analyzers c1) (enabled_analyzers c2) ->
            min_severity c1 = min_severity c2 ->
            Runs catalog file_path source_text c1 r1 ->
            Runs catalog file_path source_text c2 r2 ->
            r1 = r2).
  { intros catalog c1 c2 r1 r2 Hok Hp Hm H1 H2.
    rewrite (runs_unique _ _ _ c1 c2 r1 Hok Hp Hm H1).
    now rewrite (runs_unique _ _ _ c2 c2 r2 Hok (Permutation_refl _)
                   eq_refl H2). }
  split; [|split; [exact Hgen|split]].
  - intros c r1 r2 H1 H2.
    assert (E : r1 = r2).
    { assert (Hok : catalog_ok builtin_catalog = true)
        by (vm_compute; reflexivity).
      exact (Hgen builtin_catalog c c r1 r2 Hok (Permutation_refl _)
               eq_refl H1 H2). }
    now rewrite E.
  - intros catalog c. apply runs_run.
  - intros catalog c r [El|l s El Hsteps Hdone]; simpl; [constructor|].
    unfold severity_filter. apply filter_sorted, sort_issues_sorted.
Qed.

(** On [two_findings] the run that takes the Security analyzer first
    collects the issues in another order than the run that takes the
    Hallucinated-API analyzer first; the sort is what makes their results
    the same. *)
Lemma runs_collect_in_different_orders :
  let marks := marks_of python_profile two_findings in
  let found a := run_analyzer builtin_catalog Python two_findings marks a in
  map line (found SecurityAnalyzer ++ found CodeAnalyzer) = [2; 1]
  /\ map line (found CodeAnalyzer ++ found SecurityAnalyzer) = [1; 2]
  /\ map line (sort_issues (found SecurityAnalyzer ++ found CodeAnalyzer))
     = [1; 2].
Proof. repeat apply conj; vm_compute; reflexivity. Qed.

Lemma analysis_deterministic_witness :
  finish_run (txt "t.py") code_and_security
    {| shared_marks := marks_of python_profile two_findings;
       to_run := [];
       collected :=
         ([] ++ run_analyzer builtin_catalog Python two_findings
                  (marks_of python_profile two_findings)
                  SecurityAnalyzer)
         ++ run_analyzer builtin_catalog Python two_findings
              (marks_of python_profile two_findings) CodeAnalyzer |}
  = run builtin_catalog (txt "t.py") two_findings code_and_security.
Proof.
  assert (H1 : Runs builtin_catalog (txt "t.py") two_findings
                 code_and_security
                 (finish_run (txt "t.py") code_and_security
                    {| shared_marks :=
                         marks_of python_profile two_findings;
                       to_run := [];
                       collected :=
                         ([] ++ run_analyzer builtin_catalog Python
                                  two_findings
                                  (marks_of python_profile
                                     two_findings)
                                  SecurityAnalyzer)
                         ++ run_analyzer builtin_catalog Python
                              two_findings
                              (marks_of python_profile two_findings)
                              CodeAnalyzer |})).
  { apply (runs_finished builtin_catalog (txt "t.py") two_findings
             code_and_security Python); [reflexivity| |reflexivity].
    eapply run_steps_next.
    { exact (run_next builtin_catalog Python two_findings
               (marks_of python_profile two_findings)
               [CodeAnalyzer] [] SecurityAnalyzer []). }
    eapply run_steps_next; [|apply run_steps_refl].
    exact (run_next builtin_catalog Python two_findings
             (marks_of python_profile two_findings)
             [] [] CodeAnalyzer _). }
  pose proof (runs_run builtin_catalog (txt "t.py") two_findings
                code_and_security) as H2.
  exact (proj1 (proj1 (analysis_deterministic (txt "t.py")
                         two_findings)
                  code_and_security _ _ H1 H2)).
Defined.

(* ===================================================================== *)
(** * Further properties of the scripts                                   *)
(* ===================================================================== *)

(** ** Splitting, joining and searching *)

Lemma split_on_not_nil (sep : N) (s : text) : split_on sep s <> [].
Proof.
  destruct s as [|c s]; simpl; [discriminate|].
  destruct (N.eqb c sep); [discriminate|].
  destruct (split_on sep s); discriminate.
Qed.

(** ['\n'.join(s.split('\n')) == s] *)
Lemma join_split_on (sep : N) (s : text) : join [sep] (split_on sep s) = s.
Proof.
  induction s as [|c s IH]; [reflexivity|].
  cbn [split_on]. pose proof (split_on_not_nil sep s) as Hne.
  destruct (N.eqb_spec c sep) as [->|Hc].
  - destruct (split_on sep s) as [|l ls] eqn:E; [congruence|].
    change (join [sep] ([] :: l :: ls)) with (sep :: join [sep] (l :: ls)).
    now rewrite IH.
  - destruct (split_on sep s) as [|l ls] eqn:E; [congruence|].
    destruct ls as [|l' ls]; simpl in *; now rewrite IH.
Qed.

Lemma contains_nil (s : text) : contains [] s = true.
Proof. destruct s; reflexivity. Qed.

Lemma contains_cons (k : text) (c : N) (s : text) :
  contains k s = true -> contains k (c :: s) = true.
Proof.
  intros H. rewrite contains_unfold. apply orb_true_iff. now right.
Qed.

Lemma contains_app_r (k a s : text) :
  contains k s = true -> contains k (a ++ s) = true.
Proof.
  induction a as [|c a IH]; intros H; [exact H|].
  apply contains_cons. auto.
Qed.

(** A text that starts with [k] up to a character that is not in [k]
    starts with [k] before that character. *)
Lemma startswith_before (k x : text) (c : N) (y : text) :
  ~ In c k -> startswith k (x ++ c :: y) = true -> startswith k x = true.
Proof.
  unfold startswith. revert x.
  induction k as [|d k IH]; intros x Hc H; [reflexivity|].
  destruct x as [|e x]; simpl in *.
  - destruct (N.eqb_spec d c) as [->|]; [|discriminate].
    exfalso. apply Hc. now left.
  - destruct (N.eqb d e); [|discriminate].
    apply IH; [|exact H]. intros Hin. apply Hc. now right.
Qed.

(** An occurrence of [k] cannot straddle a character that is not in [k]. *)
Lemma contains_around (k x : text) (c : N) (y : text) :
  ~ In c k -> contains k (x ++ c :: y) = true ->
  contains k x = true \/ contains k y = true.
Proof.
  intros Hc. induction x as [|e x IH]; intros H;
    rewrite contains_unfold in H; apply orb_true_iff in H.
  - destruct H as [H|H]; [|now right].
    left. rewrite contains_unfold. apply orb_true_iff. left.
    exact (startswith_before k [] c y Hc H).
  - change ((e :: x) ++ c :: y) with (e :: (x ++ c :: y)) in H.
    destruct H as [H|H].
    + left. rewrite contains_unfold. apply orb_true_iff. left.
      exact (startswith_before k (e :: x) c y Hc H).
    + destruct (IH H) as [H'|H']; [left; now apply contains_cons|now right].
Qed.

Lemma contains_join (k : text) (sep : N) (ls : list text) :
  k <> [] -> ~ In sep k ->
  contains k (join [sep] ls) = true ->
  exists l, In l ls /\ contains k l = true.
Proof.
  intros Hk Hsep. induction ls as [|l ls IH]; intros H.
  - destruct k; [congruence|discriminate].
  - destruct ls as [|l' ls].
    + exists l. split; [now left|exact H].
    + change (join [sep] (l :: l' :: ls))
        with (l ++ sep :: join [sep] (l' :: ls)) in H.
      destruct (contains_around _ _ _ _ Hsep H) as [H'|H'].
      * exists l. split; [now left|exact H'].
      * destruct (IH H') as (x & Hx & Hc). exists x. split; [now right|exact Hc].
Qed.

Lemma join_contains (k : text) (sep : text) (ls : list text) (l : text) :
  In l ls -> contains k l = true -> contains k (join sep ls) = true.
Proof.
  induction ls as [|x ls IH]; intros Hin Hc; [destruct Hin|].
  destruct ls as [|x' ls].
  - destruct Hin as [->|[]]. exact Hc.
  - change (join sep (x :: x' :: ls)) with (x ++ sep ++ join sep (x' :: ls)).
    destruct Hin as [->|Hin].
    + now apply contains_app_l.
    + apply contains_app_r, contains_app_r. auto.
Qed.

(** ** fix_duplicates.py: what is left and what is removed *)

Lemma no_generic_suggestion_line (l : text) :
  no_generic_suggestion l = negb (is_generic_line l).
Proof.
  unfold no_generic_suggestion, is_generic_line.
  now rewrite !negb_orb.
Qed.

Lemma filter_all {A : Type} (f : A -> bool) (l : list A) :
  (forall x, In x l -> f x = true) -> filter f l = l.
Proof.
  induction l as [|x l IH]; intros H; simpl; [reflexivity|].
  rewrite (H x) by now left. f_equal. apply IH. intros y Hy. apply H. now right.
Qed.

Lemma suggestion_on_one_line (k : text) (ls : list text) :
  In k [generic_suggestion; html_suggestion; type_suggestion] ->
  contains k (join [NL] ls) = true ->
  exists l, In l ls /\ contains k l = true.
Proof.
  intros Hk. apply contains_join.
  - destruct Hk as [<-|[<-|[<-|[]]]]; discriminate.
  - intros Hin.
    assert (E : existsb (N.eqb NL) k = true).
    { apply existsb_exists. exists NL. split; [exact Hin|reflexivity]. }
    destruct Hk as [<-|[<-|[<-|[]]]]; vm_compute in E; discriminate.
Qed.

(** X1: [remove_duplicate_suggestions] removes every occurrence: in its output
    none of the three literal suggestions occurs, on no line and nowhere in
    the text. *)
Theorem remove_duplicate_suggestions_removes_all (content : text) :
  no_generic_suggestion (remove_duplicate_suggestions_text content) = true
  /\ Forall (fun l => no_generic_suggestion l = true)
       (split_on NL (remove_duplicate_suggestions_text content)).
Proof.
  assert (Hlines : forall l, In l (filtered_lines_of content) ->
                             is_generic_line l = false).
  { intros l. rewrite filtered_lines_filter, filter_In.
    intros [_ H]. now apply negb_true_iff. }
  assert (Hk : forall k,
            In k [generic_suggestion; html_suggestion; type_suggestion] ->
            contains k (remove_duplicate_suggestions_text content) = false).
  { intros k Hin.
    destruct (contains k (remove_duplicate_suggestions_text content)) eqn:E;
      [|reflexivity].
    destruct (suggestion_on_one_line k _ Hin E) as (l & Hl & Hc).
    specialize (Hlines l Hl). unfold is_generic_line in Hlines.
    apply orb_false_iff in Hlines as [Hlines H3].
    apply orb_false_iff in Hlines as [H1 H2].
    destruct Hin as [<-|[<-|[<-|[]]]]; congruence. }
  assert (Hall : no_generic_suggestion
                   (remove_duplicate_suggestions_text content) = true).
  { unfold no_generic_suggestion.
    rewrite !Hk by (simpl; auto). reflexivity. }
  split; [exact Hall|].
  apply Forall_forall. intros l Hl.
  unfold no_generic_suggestion in *.
  apply andb_true_iff in Hall as [Hall H3].
  apply andb_true_iff in Hall as [H1 H2].
  apply negb_true_iff in H1, H2, H3.
  assert (Hsub : forall k, contains k l = true ->
                 contains k (remove_duplicate_suggestions_text content) = true).
  { intros k Hc.
    rewrite <- (join_split_on NL (remove_duplicate_suggestions_text content)).
    now apply (join_contains k [NL] _ l). }
  destruct (contains generic_suggestion l) eqn:E1;
    [rewrite (Hsub _ E1) in H1; discriminate|].
  destruct (contains html_suggestion l) eqn:E2;
    [rewrite (Hsub _ E2) in H2; discriminate|].
  destruct (contains type_suggestion l) eqn:E3;
    [rewrite (Hsub _ E3) in H3; discriminate|].
  reflexivity.
Qed.

(** X2: A text in which none of the three suggestions occurs is returned as it
    is, so [remove_duplicate_suggestions] leaves such a file untouched: it
    neither writes nor prints. *)
Theorem remove_duplicate_suggestions_nothing_to_do (content : text) :
  no_generic_suggestion content = true ->
  remove_duplicate_suggestions_text content = content
  /\ forall (path : text) (w : fsys),
       files w !! path = Some content ->
       remove_duplicate_suggestions path w = (Ok tt, w, []).
Proof.
  intros H.
  assert (E : remove_duplicate_suggestions_text content = content).
  { unfold remove_duplicate_suggestions_text.
    rewrite filtered_lines_filter, filter_all; [apply join_split_on|].
    intros l Hl. rewrite <- no_generic_suggestion_line.
    unfold no_generic_suggestion in *.
    apply andb_true_iff in H as [H H3]. apply andb_true_iff in H as [H1 H2].
    apply negb_true_iff in H1, H2, H3.
    assert (Hsub : forall k, contains k l = true -> contains k content = true).
    { intros k Hc. rewrite <- (join_split_on NL content).
      now apply (join_contains k [NL] _ l). }
    destruct (contains generic_suggestion l) eqn:E1;
      [rewrite (Hsub _ E1) in H1; discriminate|].
    destruct (contains html_suggestion l) eqn:E2;
      [rewrite (Hsub _ E2) in H2; discriminate|].
    destruct (contains type_suggestion l) eqn:E3;
      [rewrite (Hsub _ E3) in H3; discriminate|].
    reflexivity. }
  split; [exact E|].
  intros path w Hf. unfold remove_duplicate_suggestions.
  rewrite patch_file_cases, Hf, E.
  now rewrite (proj2 (text_neb_false content content) eq_refl).
Qed.

Lemma remove_duplicate_suggestions_nothing_to_do_witness :
  remove_duplicate_suggestions_text (txt "keep") = txt "keep"
  /\ remove_duplicate_suggestions (txt "src/analyzers/b.rs") demo_fs
     = (Ok tt, demo_fs, []).
Proof.
  assert (H : no_generic_suggestion (txt "keep") = true)
    by (vm_compute; reflexivity).
  split.
  - exact (proj1 (remove_duplicate_suggestions_nothing_to_do (txt "keep") H)).
  - apply (proj2 (remove_duplicate_suggestions_nothing_to_do (txt "keep") H)).
    simpl. rewrite lookup_insert_ne by discriminate.
    apply lookup_singleton_eq.
Defined.

(** ** fix_suggestions.py and clean_suggestions.py *)

Lemma forallb_impl {A : Type} (p q : A -> bool) (l : list A) :
  (forall x, p x = true -> q x = true) ->
  forallb p l = true -> forallb q l = true.
Proof.
  intros H. induction l as [|x l IH]; simpl; [reflexivity|].
  intros Hp. apply andb_true_iff in Hp as [Hx Hl].
  now rewrite (H x Hx), IH.
Qed.

Lemma is_space_not_brace (c : N) :
  is_space c = true -> not_char "}" c = true.
Proof.
  intros H. unfold not_char. change (txt "}") with [125%N].
  cbn [existsb]. rewrite orb_false_r.
  destruct (N.eqb_spec c 125) as [->|]; [|reflexivity].
  vm_compute in H. discriminate.
Qed.

(** [(pre + '});').replace('});', new)] when no closing brace is in [pre]. *)
Lemma replace_closing (new pre : text) :
  forallb (not_char "}") pre = true ->
  str_replace (txt "});") new (pre ++ txt "});") = pre ++ new.
Proof.
  unfold str_replace. induction pre as [|c pre IH]; intros H.
  - simpl. now rewrite app_nil_r.
  - simpl in H. apply andb_true_iff in H as [Hc Hpre].
    change ((c :: pre) ++ txt "});") with (c :: (pre ++ txt "});")).
    cbn [replace_from].
    assert (E : startswith (txt "});") (c :: pre ++ txt "});") = false).
    { unfold not_char in Hc. change (txt "}") with [125%N] in Hc.
      cbn [existsb] in Hc. rewrite orb_false_r in Hc.
      apply negb_true_iff in Hc.
      unfold startswith. change (txt "});") with [125%N; 41%N; 59%N].
      cbn [lit_strip]. rewrite N.eqb_sym, Hc. reflexivity. }
    rewrite E. change ((c :: pre) ++ new) with (c :: (pre ++ new)).
    f_equal. now apply IH.
Qed.

Lemma rewrites_sublist (piece : text -> text -> Prop) :
  (forall m out, piece m out -> sublist m out) ->
  forall s t, Rewrites piece s t -> sublist s t.
Proof.
  intros Hp s t H. induction H as [|c s t H IH|m out s t Hm H IH].
  - constructor.
  - now apply sublist_skip.
  - apply sublist_app; auto.
Qed.

Lemma rewrites_sublist_back (piece : text -> text -> Prop) :
  (forall m out, piece m out -> sublist out m) ->
  forall s t, Rewrites piece s t -> sublist t s.
Proof.
  intros Hp s t H. induction H as [|c s t H IH|m out s t Hm H IH].
  - constructor.
  - now apply sublist_skip.
  - apply sublist_app; auto.
Qed.

Lemma contains_prefix (k s : text) : contains k (k ++ s) = true.
Proof.
  rewrite contains_unfold. apply orb_true_iff. left. apply startswith_app.
Qed.

Lemma fix_pattern_piece (m : text) (e : caps) :
  Den fix_pattern m no_caps e ->
  m <> [] /\ fix_piece m (fix_repl m e).
Proof.
  unfold fix_pattern. cbn [seq_re]. intros H. den_inv H.
  split; [discriminate|].
  match goal with
  | |- fix_piece (?a ++ ?w0 ++ ?b ++ ?g1 ++ ?c1 ++ ?w1 ++ ?d ++ ?g2 ++ ?c2
                  ++ ?w2 ++ ?l ++ ?g3 ++ ?c3 ++ ?w3 ++ ?r ++ ?g4 ++ ?c4
                  ++ ?w4 ++ ?k) _ =>
      exists w0, g1, w1, g2, w2, g3, w3, g4, w4
  end.
  cbv zeta.
  assert (Hspace : forall ws, forallb is_space ws = true ->
                              forallb (not_char "}") ws = true).
  { intros ws. apply forallb_impl, is_space_not_brace. }
  split; [repeat constructor; assumption|].
  split; [repeat constructor; assumption|].
  split; [now rewrite <- !app_assoc|].
  unfold fix_repl.
  match goal with
  | |- str_replace _ ?new ?matched = ?fields ++ _ =>
      replace matched with (fields ++ txt "});")
        by now rewrite <- !app_assoc
  end.
  apply replace_closing.
  rewrite !forallb_app.
  repeat (apply andb_true_iff; split); auto.
Qed.

Lemma fix_piece_sublist (m out : text) : fix_piece m out -> sublist m out.
Proof.
  intros (ws0 & f1 & ws1 & f2 & ws2 & f3 & ws3 & f4 & ws4 & _ & _ & -> & ->).
  apply sublist_app; [reflexivity|].
  change (txt "                    });")
    with (txt "                    " ++ txt "});").
  apply sublist_inserts_l, (sublist_inserts_l [NL]), sublist_inserts_l.
  reflexivity.
Qed.

Lemma fix_piece_anchor (m out : text) :
  fix_piece m out -> contains (txt "issues.push(Issue {") m = true.
Proof.
  intros (ws0 & f1 & ws1 & f2 & ws2 & f3 & ws3 & f4 & ws4 & _ & _ & -> & _).
  rewrite <- !app_assoc. apply contains_prefix.
Qed.

(** X3: [fix_issues_in_file] only inserts: it rewrites disjoint Issue
    constructions with the four fields severity, message, line and rule by
    putting the generic suggestion line before their closing [});], so the
    text it read is a subsequence of the text it produces; and a text in
    which [issues.push(Issue {] does not occur is left as it is. *)
Theorem fix_issues_inserts_only (content : text) :
  Rewrites fix_piece content (fix_issues_text content)
  /\ sublist content (fix_issues_text content)
  /\ (contains (txt "issues.push(Issue {") content = false ->
      fix_issues_text content = content).
Proof.
  assert (H : Rewrites fix_piece content (fix_issues_text content)).
  { apply re_sub_rewrites. exact fix_pattern_piece. }
  split; [exact H|]. split.
  - exact (rewrites_sublist _ fix_piece_sublist _ _ H).
  - intros Hc. exact (rewrites_unchanged _ _ fix_piece_anchor _ _ H Hc).
Qed.

Lemma fix_issues_inserts_only_witness :
  fix_issues_text (txt "fn main() { run(); }") = txt "fn main() { run(); }".
Proof.
  apply (proj2 (proj2 (fix_issues_inserts_only (txt "fn main() { run(); }")))).
  vm_compute. reflexivity.
Defined.

Lemma clean_pattern_piece (m : text) (e : caps) :
  Den clean_pattern m no_caps e ->
  m <> [] /\ clean_piece m (clean_repl m e).
Proof.
  unfold clean_pattern. cbn [seq_re]. intros H. den_inv H.
  match goal with
  | Hn : ?w <> [] |- (?w ++ ?a) ++ ?b <> [] /\ _ =>
      split; [destruct w; [congruence|intros E; inversion E]|]
  end.
  unfold clean_piece, clean_repl, set_cap. cbn [Nat.eqb].
  match goal with
  | |- exists _ _ _, _ /\ _ /\ _ /\ _ /\ _ /\ _
                     /\ ?w1 ++ _ ++ ?f ++ _ = _ /\ _ ++ ?w2 ++ _ = _ =>
      exists w1, f, w2
  end.
  refine (conj _ (conj _ (conj _ (conj _ (conj _ (conj _ (conj _ _)))))));
    try assumption; reflexivity.
Qed.

Lemma clean_piece_sublist (m out : text) : clean_piece m out -> sublist out m.
Proof.
  intros (ws1 & f & ws2 & _ & _ & _ & _ & _ & _ & _ & ->).
  apply sublist_inserts_r. reflexivity.
Qed.

Lemma clean_piece_anchor (m out : text) :
  clean_piece m out -> contains generic_suggestion m = true.
Proof.
  intros (ws1 & f & ws2 & _ & _ & _ & _ & _ & _ & _ & ->).
  rewrite app_assoc. apply contains_suffix.
Qed.

(** X4: [clean_duplicates_in_file] only deletes: it rewrites disjoint pieces,
    each a suggestion field followed by white space and the generic
    suggestion, by keeping the field alone, so the text it produces is a
    subsequence of the text it read; and a text in which the generic
    suggestion does not occur is left as it is. *)
Theorem clean_duplicates_deletes_only (content : text) :
  Rewrites clean_piece content (clean_duplicates_text content)
  /\ sublist (clean_duplicates_text content) content
  /\ (contains generic_suggestion content = false ->
      clean_duplicates_text content = content).
Proof.
  assert (H : Rewrites clean_piece content (clean_duplicates_text content)).
  { apply re_sub_rewrites. exact clean_pattern_piece. }
  split; [exact H|]. split.
  - exact (rewrites_sublist_back _ clean_piece_sublist _ _ H).
  - intros Hc. exact (rewrites_unchanged _ _ clean_piece_anchor _ _ H Hc).
Qed.

Lemma clean_duplicates_deletes_only_witness :
  clean_duplicates_text issue_without_suggestion = issue_without_suggestion.
Proof.
  apply (proj2 (proj2 (clean_duplicates_deletes_only
                         issue_without_suggestion))).
  vm_compute. reflexivity.
Defined.

(** ** What the suggestion patches look for *)

Lemma contains_middle (k a b : text) : contains k (a ++ k ++ b) = true.
Proof. apply contains_app_r, contains_prefix. Qed.

Lemma missing_piece_rule (m out : text) :
  missing_piece m out -> contains (txt "rule: Some(") m = true.
Proof.
  intros (body & ws & ws' & _ & _ & _ & _ & -> & _). apply contains_prefix.
Qed.

Lemma none_piece_rule (m out : text) :
  none_piece m out -> contains (txt "rule: Some(") m = true.
Proof.
  intros (fields & body & ws & ws' & _ & _ & _ & _ & _ & -> & _).
  rewrite (app_assoc (txt "issues.push(Issue {")). apply contains_middle.
Qed.

Lemma none_piece_push (m out : text) :
  none_piece m out -> contains (txt "issues.push(Issue {") m = true.
Proof.
  intros (fields & body & ws & ws' & _ & _ & _ & _ & _ & -> & _).
  apply contains_prefix.
Qed.

(** X5: [add_missing_suggestions] and [add_none_suggestions] leave a text
    without a [rule: Some(] as it is, and [add_none_suggestions] also a
    text without an [issues.push(Issue {]. *)
Theorem suggestion_patches_anchors (content : text) :
  (contains (txt "rule: Some(") content = false ->
   add_missing_suggestions_text content = content
   /\ add_none_suggestions_text content = content)
  /\ (contains (txt "issues.push(Issue {") content = false ->
      add_none_suggestions_text content = content).
Proof.
  assert (H1 : Rewrites missing_piece content
                 (add_missing_suggestions_text content)).
  { apply re_sub_rewrites. exact missing_pattern_piece. }
  assert (H2 : Rewrites none_piece content
                 (add_none_suggestions_text content)).
  { apply re_sub_rewrites. exact none_pattern_piece. }
  split.
  - intros Hc. split.
    + exact (rewrites_unchanged _ _ missing_piece_rule _ _ H1 Hc).
    + exact (rewrites_unchanged _ _ none_piece_rule _ _ H2 Hc).
  - intros Hc. exact (rewrites_unchanged _ _ none_piece_push _ _ H2 Hc).
Qed.

Lemma suggestion_patches_anchors_witness :
  add_missing_suggestions_text (txt "let x = vec![1]; });")
  = txt "let x = vec![1]; });"
  /\ add_none_suggestions_text stray_rule_field = stray_rule_field.
Proof.
  assert (H1 : contains (txt "rule: Some(") (txt "let x = vec![1]; });")
               = false) by (vm_compute; reflexivity).
  assert (H2 : contains (txt "issues.push(Issue {") stray_rule_field = false)
    by (vm_compute; reflexivity).
  split.
  - exact (proj1 (proj1 (suggestion_patches_anchors
                           (txt "let x = vec![1]; });")) H1)).
  - exact (proj2 (suggestion_patches_anchors stray_rule_field) H2).
Defined.

(** ** A script run, entry by entry *)

Lemma patch_function_report (s : script) :
  patch_function s = patch_file (transformation s) (report_of s).
Proof. destruct s; reflexivity. Qed.

Lemma run_script_entries (s : script) (w : fsys) :
  run_script s w
  = match dirs w !! analyzer_dir with
    | Some names => for_each names (patch_entry s) w
    | None => (Raise FileNotFoundError, w, [])
    end.
Proof.
  unfold run_script, patch_all, bind, listdir.
  destruct (dirs w !! analyzer_dir) as [names|]; [|reflexivity].
  fold (patch_entry s).
  change (fun file_name : text =>
            if endswith (txt ".rs") file_name
            then patch_function s (path_join analyzer_dir file_name)
            else ret tt) with (patch_entry s).
  destruct (for_each names (patch_entry s) w) as [[r w'] l]. reflexivity.
Qed.

Lemma for_each_cons {A : Type} (x : A) (l : list A) (body : A -> M unit)
    (w : fsys) :
  for_each (x :: l) body w
  = match body x w with
    | (Ok _, w1, l1) =>
        match for_each l body w1 with
        | (r, w2, l2) => (r, w2, l1 ++ l2)
        end
    | (Raise e, w1, l1) => (Raise e, w1, l1)
    end.
Proof. reflexivity. Qed.


(** What the loop body does for one entry, case by case. *)
Lemma patch_entry_cases (s : script) (name : text) (w : fsys) :
  patch_entry s name w
  = if endswith (txt ".rs") name then
      match files w !! path_join analyzer_dir name with
      | None => (Raise FileNotFoundError, w, [])
      | Some content =>
          (Ok tt,
           if text_neb (transformation s content) content
           then {| files := <[path_join analyzer_dir name
                              := transformation s content]> (files w);
                   dirs := dirs w |}
           else w,
           patched s w name)
      end
    else (Ok tt, w, []).
Proof.
  unfold patch_entry, patched, changed_by.
  destruct (endswith (txt ".rs") name); [|reflexivity].
  rewrite patch_function_report, patch_file_cases.
  destruct (files w !! path_join analyzer_dir name) as [c|]; [|reflexivity].
  simpl. destruct (text_neb (transformation s c) c); reflexivity.
Qed.








(** ** Progress lines and writes *)

Lemma patched_reported (s : script) (w : fsys) (name : text) :
  patched s w name
  = flat_map (fun p => [Wrote p; Printed (report_of s ++ p)])
      (written (patched s w name)).
Proof. unfold patched. destruct (changed_by s w name); reflexivity. Qed.

Lemma patch_entry_effects (s : script) (name : text) (w : fsys) :
  (patch_entry s name w).2 = [] \/ (patch_entry s name w).2 = patched s w name.
Proof.
  rewrite patch_entry_cases.
  destruct (endswith (txt ".rs") name); [|now left].
  destruct (files w !! path_join analyzer_dir name); [now right|now left].
Qed.

(** X7: Every write of a script run is reported: the effects of a run are,
    for each path opened for writing and in this order, the write and the
    progress line that names this path; nothing else is printed. *)
Theorem script_reports_each_write (s : script) (w : fsys) :
  (run_script s w).2
  = flat_map (fun p => [Wrote p; Printed (report_of s ++ p)])
      (written (run_script s w).2).
Proof.
  rewrite run_script_entries.
  destruct (dirs w !! analyzer_dir) as [names|]; [|reflexivity].
  revert w. induction names as [|x names IH]; intros w; [reflexivity|].
  rewrite for_each_cons.
  pose proof (patch_entry_effects s x w) as He.
  destruct (patch_entry s x w) as [[[a|e] w1] l1]; simpl in He.
  - specialize (IH w1).
    destruct (for_each names (patch_entry s) w1) as [[r w2] l2].
    simpl in *. rewrite written_app, flat_map_app, <- IH.
    f_equal. destruct He as [->| ->]; [reflexivity|apply patched_reported].
  - simpl. destruct He as [->| ->]; [reflexivity|apply patched_reported].
Qed.

(** ** A run that cannot read an entry *)




(** ** Running fix_duplicates.py again *)

Lemma remove_duplicate_suggestions_text_idem (content : text) :
  remove_duplicate_suggestions_text (remove_duplicate_suggestions_text content)
  = remove_duplicate_suggestions_text content.
Proof.
  unfold remove_duplicate_suggestions_text.
  rewrite !filtered_lines_filter.
  set (f := fun l => negb (is_generic_line l)).
  destruct (filter f (split_on NL content)) as [|l ls] eqn:E;
    [vm_compute; reflexivity|].
  rewrite <- E. unfold NL at 2.
  rewrite split_on_join.
  - now rewrite filter_idem.
  - rewrite E. discriminate.
  - apply filter_no_sep, split_on_no_sep.
Qed.

(** A file whose content the transformation leaves as it is keeps this
    content through the rest of a run. *)
Lemma for_each_patch_keeps_fixed (s : script) (p c : text) :
  transformation s c = c ->
  forall (names : list text) (w : fsys),
    files w !! p = Some c ->
    files (for_each names (patch_entry s) w).1.2 !! p = Some c.
Proof.
  intros Hfix. induction names as [|x names IH]; intros w Hp; [exact Hp|].
  rewrite for_each_cons, patch_entry_cases.
  destruct (endswith (txt ".rs") x).
  - destruct (files w !! path_join analyzer_dir x) as [c0|] eqn:Hc0;
      [|exact Hp].
    destruct (text_neb (transformation s c0) c0) eqn:Hne.
    + assert (Hq : path_join analyzer_dir x <> p).
      { intros E. rewrite E, Hp in Hc0. injection Hc0 as <-.
        rewrite Hfix in Hne. unfold text_neb in Hne.
        destruct (decide (c = c)); [discriminate|congruence]. }
      set (w1 := {| files := <[path_join analyzer_dir x
                               := transformation s c0]> (files w);
                    dirs := dirs w |}).
      assert (Hp1 : files w1 !! p = Some c)
        by (simpl; now rewrite lookup_insert_ne).
      specialize (IH w1 Hp1).
      destruct (for_each names (patch_entry s) w1) as [[r w2] l2].
      exact IH.
    + specialize (IH w Hp).
      destruct (for_each names (patch_entry s) w) as [[r w2] l2].
      exact IH.
  - specialize (IH w Hp).
    destruct (for_each names (patch_entry s) w) as [[r w2] l2].
    exact IH.
Qed.

Lemma for_each_patch_again (s : script) :
  (forall c, transformation s (transformation s c) = transformation s c) ->
  forall (names : list text) (w : fsys),
    for_each names (patch_entry s)
      (for_each names (patch_entry s) w).1.2
    = ((for_each names (patch_entry s) w).1.1,
       (for_each names (patch_entry s) w).1.2, []).
Proof.
  intros Hidem. induction names as [|x names IH]; intros w; [reflexivity|].
  assert (Hstep : forall (w1 : fsys) (l1 : list effect),
            patch_entry s x w = (Ok tt, w1, l1) ->
            (endswith (txt ".rs") x = true ->
             exists c, files w1 !! path_join analyzer_dir x = Some c
                       /\ transformation s c = c) ->
            for_each (x :: names) (patch_entry s)
              (for_each (x :: names) (patch_entry s) w).1.2
            = ((for_each (x :: names) (patch_entry s) w).1.1,
               (for_each (x :: names) (patch_entry s) w).1.2, [])).
  { intros w1 l1 Hw1 Hfix.
    rewrite (for_each_cons x names (patch_entry s) w), Hw1.
    specialize (IH w1).
    pose proof (fun c H => for_each_patch_keeps_fixed s
                  (path_join analyzer_dir x) c H names w1) as Hkeep.
    destruct (for_each names (patch_entry s) w1) as [[r w2] l2].
    cbn [fst snd] in *. rewrite for_each_cons, patch_entry_cases.
    unfold patched, changed_by.
    destruct (endswith (txt ".rs") x).
    - destruct (Hfix eq_refl) as (c & Hc & Hcc).
      assert (Hn : text_neb c c = false) by now apply text_neb_false.
      rewrite (Hkeep c Hcc Hc), Hcc, Hn. cbn [andb].
      now rewrite IH.
    - now rewrite IH. }
  pose proof (patch_entry_cases s x w) as Hx.
  destruct (endswith (txt ".rs") x) eqn:Hrs.
  - destruct (files w !! path_join analyzer_dir x) as [c|] eqn:Hc.
    + destruct (text_neb (transformation s c) c) eqn:Hne.
      * apply (Hstep _ _ Hx).
        intros _. exists (transformation s c). split; [|apply Hidem].
        apply lookup_insert_eq.
      * apply (Hstep _ _ Hx).
        intros _. exists c. split; [exact Hc|].
        unfold text_neb in Hne.
        now destruct (decide (transformation s c = c)).
    + rewrite (for_each_cons x names (patch_entry s) w), Hx. cbn [fst snd].
      now rewrite for_each_cons, patch_entry_cases, Hrs, Hc.
  - apply (Hstep _ _ Hx). intros H; discriminate H.
Qed.

(** X9: Running fix_duplicates.py a second time does nothing: whatever the
    first run met, the second run ends the same way (normally, or with the
    same exception), leaves the file system as the first run left it, and
    neither writes nor prints. *)
Theorem fix_duplicates_second_run (w : fsys) :
  run_script FixDuplicates (run_script FixDuplicates w).1.2
  = ((run_script FixDuplicates w).1.1, (run_script FixDuplicates w).1.2, []).
Proof.
  assert (Hd : forall names w0,
            dirs (for_each names (patch_entry FixDuplicates) w0).1.2
            = dirs w0).
  { induction names as [|x names IH]; intros w0; [reflexivity|].
    rewrite for_each_cons, patch_entry_cases.
    destruct (endswith (txt ".rs") x).
    - destruct (files w0 !! path_join analyzer_dir x) as [c|]; [|reflexivity].
      destruct (text_neb _ c).
      + set (w1 := Build_fsys _ _). specialize (IH w1).
        destruct (for_each names _ w1) as [[r w2] l2]. exact IH.
      + specialize (IH w0).
        destruct (for_each names _ w0) as [[r w2] l2]. exact IH.
    - specialize (IH w0).
      destruct (for_each names _ w0) as [[r w2] l2]. exact IH. }
  rewrite (run_script_entries FixDuplicates w).
  destruct (dirs w !! analyzer_dir) as [names|] eqn:E.
  - rewrite run_script_entries, Hd, E.
    apply for_each_patch_again.
    exact remove_duplicate_suggestions_text_idem.
  - simpl. now rewrite run_script_entries, E.
Qed.

(** ** [run_vow_command]: what it raises *)

Lemma str_encode_surrogate (t : text) :
  existsb is_surrogate t = true -> str_encode t = Raise UnicodeEncodeError.
Proof.
  induction t as [|c t IH]; simpl; [discriminate|].
  intros H. apply orb_true_iff in H as [H|H].
  - unfold utf8_char, is_surrogate in *.
    apply andb_true_iff in H as [H1 H2].
    apply N.leb_le in H1. pose proof H2 as H2'. apply N.leb_le in H2'.
    destruct (N.ltb_spec c 128); [lia|].
    destruct (N.ltb_spec c 2048); [lia|].
    apply N.leb_le in H1. now rewrite H1, H2.
  - rewrite (IH H). now destruct (utf8_char c).
Qed.

Lemma str_encode_raises (t : text) (e : exn) :
  str_encode t = Raise e -> e = UnicodeEncodeError.
Proof.
  revert e. induction t as [|c t IH]; intros e; simpl; [discriminate|].
  destruct (utf8_char c); [|congruence].
  destruct (str_encode t) as [bs|e']; [discriminate|].
  intros [= <-]. now apply IH.
Qed.


(** X11: An input text with a surrogate code point cannot be encoded:
    [run_vow_command] raises UnicodeEncodeError and the command is never
    run, so the result is the same whatever running it would do. *)
Theorem run_vow_command_surrogate_input
    (subprocess_run : list text -> option (list N) -> launch)
    (args : list text) (input_text : text) :
  existsb is_surrogate input_text = true ->
  run_vow_command subprocess_run args (Some input_text)
  = Raise UnicodeEncodeError.
Proof.
  intros H. unfold run_vow_command, input_bytes.
  destruct input_text as [|c t]; [discriminate|].
  now rewrite (str_encode_surrogate _ H).
Qed.

Lemma run_vow_command_surrogate_input_witness :
  existsb is_surrogate [104; 55357; 105]%N = true
  /\ run_vow_command (fun _ _ => Completed (txt "{}") [] 0%Z)
       [txt "check"; txt "-"] (Some [104; 55357; 105]%N)
     = Raise UnicodeEncodeError.
Proof.
  split; [reflexivity|].
  apply run_vow_command_surrogate_input. reflexivity.
Defined.

(** X12: Without input, and with the empty input text, which the test
    [if input_text] takes as none, no bytes are passed to the command and
    [run_vow_command] returns what the command gives: its output when it
    completes, the not-found triple when the binary is missing, and any
    other exception unchanged. *)
Theorem run_vow_command_without_input
    (subprocess_run : list text -> option (list N) -> launch)
    (args : list text) (input_text : option text) :
  input_text = None \/ input_text = Some [] ->
  run_vow_command subprocess_run args input_text
  = match subprocess_run ([txt "./target/release/vow"] ++ args) None with
    | Completed stdout stderr returncode => Ok (stdout, stderr, returncode)
    | Failed FileNotFoundError => Ok ([], txt "vow binary not found", 1%Z)
    | Failed e => Raise e
    end.
Proof.
  intros [-> | ->]; unfold run_vow_command, input_bytes;
    destruct (subprocess_run _ None) as [o e c|[]]; reflexivity.
Qed.

Lemma run_vow_command_without_input_witness :
  run_vow_command (fun _ _ => Failed PermissionError) [txt "check"] (Some [])
  = Raise PermissionError.
Proof.
  apply (run_vow_command_without_input
           (fun _ _ => Failed PermissionError) [txt "check"] (Some [])).
  now right.
Defined.

(** X13: With a non-empty input text [run_vow_command] never returns the output
    of the process when [subprocess.run] is in text mode: the only triple
    it can return is the one that reports the missing binary. *)
Theorem run_vow_command_input_not_delivered (popen : list text -> launch)
    (args : list text) (input_text : text) (r : text * text * Z) :
  input_text <> [] ->
  run_vow_command (text_mode_run popen) args (Some input_text) = Ok r ->
  r = ([], txt "vow binary not found", 1%Z)
  /\ popen ([txt "./target/release/vow"] ++ args) = Failed FileNotFoundError.
Proof.
  intros Hne. unfold run_vow_command, text_mode_run, input_bytes.
  destruct input_text as [|c t]; [congruence|].
  destruct (str_encode (c :: t)) as [b|e] eqn:Hs.
  - destruct (popen _) as [o e c'|[]]; try discriminate.
    intros [= <-]. split; reflexivity.
  - rewrite (str_encode_raises _ _ Hs). discriminate.
Qed.

Lemma run_vow_command_input_not_delivered_witness :
  ([] : text, txt "vow binary not found", 1%Z)
  = ([], txt "vow binary not found", 1%Z)
  /\ (fun _ : list text => Failed FileNotFoundError)
       ([txt "./target/release/vow"] ++ [txt "check"; txt "-"])
     = Failed FileNotFoundError.
Proof.
  apply (run_vow_command_input_not_delivered
           (fun _ => Failed FileNotFoundError) [txt "check"; txt "-"]
           (txt "print(1)")).
  - discriminate.
  - vm_compute. reflexivity.
Defined.
